(** * Quick commands, contract aliases and command-line reconstruction

    A shallow embedding of the text-processing core of the wallet manager
    CLI: the tokenizer and the invocation reconstructor of [WalletManager]
    (src/wallet-manager.ts), the template registry and expander of
    [QuickCommandManager], and the alias registry of [ContractManager]
    (src/contract-manager.ts).

    Conventions of the embedding.
    - A JavaScript string is a [string]: a sequence of code units, here
      restricted to the 8-bit range; [s.length] is [String.length s].
    - A JavaScript object used as a dictionary is a [gmap string _] over its
      own keys; documents read from disk are assumed well typed. A read of
      a key that the object inherits and does not own is outside the
      embedding: the statements that depend on such a read are about the
      keys with [own_name].
    - [throw new Error(msg)] is the outcome [Throw (Error msg)].
    - Every [new Date().toISOString()] of one operation reads the instant
      [now], passed as an argument. *)

From Stdlib Require Import String Ascii List Arith Lia Bool.
From Stdlib Require Import DecimalString.
From stdpp Require Import gmap strings.
From Equations Require Import Equations.
Import ListNotations.
Open Scope string_scope.

(** ** JavaScript primitives used by the sources *)

Module JS.

(** The code unit of the double quote, written by its decimal code. *)
Definition dquote : ascii := "034"%char.
Definition squote : ascii := "'"%char.
Definition space : ascii := " "%char.
Definition dollar : ascii := "$"%char.

(** A one-character string, as [command[i]] yields. *)
Definition char_string (c : ascii) : string := String c "".

(** [if (s)]: a string is truthy unless it is empty. *)
Definition truthy (s : string) : bool := negb (s =? "").

(** [s.startsWith(p)]. *)
Fixpoint startsWith (s p : string) {struct p} : bool :=
  match p with
  | "" => true
  | String b p' =>
    match s with
    | "" => false
    | String a s' => (Ascii.eqb a b && startsWith s' p')%bool
    end
  end.

(** [s.substring(n)]: the text from offset [n] on. *)
Fixpoint drop (n : nat) (s : string) : string :=
  match n, s with
  | O, _ => s
  | S _, "" => ""
  | S n', String _ s' => drop n' s'
  end.

(** [s.substring(0, n)]. *)
Fixpoint take (n : nat) (s : string) : string :=
  match n, s with
  | O, _ => ""
  | S _, "" => ""
  | S n', String c s' => String c (take n' s')
  end.

(** Outcome of a call that may throw. *)
Inductive exn : Type := Error (message : string).

Inductive result (A : Type) : Type :=
| Return (a : A)
| Throw (e : exn).
Arguments Return {A} a.
Arguments Throw {A} e.

(** Template literals print numbers in decimal. *)
Definition number_to_string (n : nat) : string :=
  NilEmpty.string_of_uint (Nat.to_uint n).

(** *** Keys of a dictionary object *)

(** The members that every object inherits from [Object.prototype]. A
    property read [object[key]] finds them when the object has no own
    member of that name, and an assignment to [__proto__] stores nothing:
    the registries are finite maps over their own keys, and their
    operations are those of the code for the names that are not in this
    list. *)
Definition prototype_names : list string :=
  ["constructor"; "__defineGetter__"; "__defineSetter__"; "hasOwnProperty";
   "__lookupGetter__"; "__lookupSetter__"; "isPrototypeOf";
   "propertyIsEnumerable"; "toString"; "valueOf"; "__proto__";
   "toLocaleString"].

Definition own_name (key : string) : bool :=
  negb (existsb (String.eqb key) prototype_names).

End JS.

Import JS.

(** ** Files read by the import operations *)

Module Files.

(** What a file holds for the [try] block of an import: a document, or
    text on which the block throws before it validates anything (as
    [JSON.parse] does on malformed text); [error] is that exception as a
    template literal prints it. *)
Inductive content (D : Type) : Type :=
| Parsed (d : D)
| Unparsable (error : string).
Arguments Parsed {D} d.
Arguments Unparsable {D} error.

End Files.

(** ** The tokenizer and the reconstructor of [WalletManager] *)

Module WalletManager.

(** The four locals of [parseCommandLine]. *)
Record scanner : Type := Scanner {
  args : list string;
  current : string;
  inQuotes : bool;
  quoteChar : string
}.

Definition is_quote (char : ascii) : bool :=
  (Ascii.eqb char dquote || Ascii.eqb char squote)%bool.

(** One iteration of the [for] loop of [parseCommandLine]. *)
Definition scan_char (st : scanner) (char : ascii) : scanner :=
  if (is_quote char && negb (inQuotes st))%bool then
    Scanner (args st) (current st) true (char_string char)
  else if ((char_string char =? quoteChar st) && inQuotes st)%bool then
    Scanner (args st) (current st) false ""
  else if (Ascii.eqb char space && negb (inQuotes st))%bool then
    if truthy (current st)
    then Scanner (args st ++ [current st]) "" (inQuotes st) (quoteChar st)
    else st
  else
    Scanner (args st) (current st ++ char_string char) (inQuotes st) (quoteChar st).

(** The loop, [i] running over the code units of [command]. *)
Fixpoint scan (command : string) (st : scanner) : scanner :=
  match command with
  | "" => st
  | String char rest => scan rest (scan_char st char)
  end.

(** The flush after the loop. *)
Definition finish (st : scanner) : list string :=
  if truthy (current st) then args st ++ [current st] else args st.

Definition parseCommandLine (command : string) : list string :=
  finish (scan command (Scanner [] "" false "")).

(** What [parseQuickCommand] returns; [rpcUrl] and the three members of
    [options] are absent until a flag sets them. *)
Record call_options : Type := CallOptions {
  gasLimit : option string;
  gasPrice : option string;
  value : option string
}.

Record quick_call : Type := QuickCall {
  alias : string;
  contractAddress : string;
  methodSignature : string;
  call_args : list string;
  rpcUrl : option string;
  options : call_options
}.

(** The locals the option loop of [parseQuickCommand] updates. *)
Record option_scan : Type := OptionScan {
  x_args : list string;
  x_rpcUrl : option string;
  x_options : call_options
}.

(** The loop over [remainingParts]: the argument is
    [remainingParts.slice(i)], so [next] is [remainingParts[i + 1]] and is
    present exactly when [i + 1 < remainingParts.length]; a consumed pair
    advances [i] by two. *)
Fixpoint scan_options (remaining : list string) (st : option_scan) : option_scan :=
  match remaining with
  | [] => st
  | part :: rest =>
    let otherwise :=
      if negb (startsWith part "--")
      then scan_options rest (OptionScan (x_args st ++ [part]) (x_rpcUrl st) (x_options st))
      else scan_options rest st in
    match rest with
    | next :: rest' =>
      if part =? "--rpc-url" then
        scan_options rest' (OptionScan (x_args st) (Some next) (x_options st))
      else if part =? "--gas-limit" then
        scan_options rest' (OptionScan (x_args st) (x_rpcUrl st)
          (CallOptions (Some next) (gasPrice (x_options st)) (value (x_options st))))
      else if part =? "--gas-price" then
        scan_options rest' (OptionScan (x_args st) (x_rpcUrl st)
          (CallOptions (gasLimit (x_options st)) (Some next) (value (x_options st))))
      else if part =? "--value" then
        scan_options rest' (OptionScan (x_args st) (x_rpcUrl st)
          (CallOptions (gasLimit (x_options st)) (gasPrice (x_options st)) (Some next)))
      else otherwise
    | [] => otherwise
    end
  end.

Definition format_error : exn :=
  Error "Invalid quick command format. Expected: call <alias> <contract> <method> [args...]".

(** [parts[i]]; every index read below is in range once the length guard
    has passed. *)
Definition part_at (parts : list string) (i : nat) : string := nth i parts "".

Definition parseQuickCommand (command : string) : result quick_call :=
  let parts := parseCommandLine command in
  if (length parts <? 4)%nat then Throw format_error
  else
    let startIndex :=
      if ((part_at parts 0 =? "call") || (part_at parts 0 =? "send"))%bool
      then 1 else 0 in
    let remainingParts := skipn (startIndex + 3) parts in
    let st := scan_options remainingParts (OptionScan [] None (CallOptions None None None)) in
    Return (QuickCall (part_at parts startIndex)
                      (part_at parts (startIndex + 1))
                      (part_at parts (startIndex + 2))
                      (x_args st) (x_rpcUrl st) (x_options st)).

End WalletManager.

(** ** The template registry and expander: [QuickCommandManager] *)

Module QuickCommandManager.

Record QuickCommand : Type := mkQuickCommand {
  name : string;
  parameters : list string;
  template : string;
  description : option string;
  createdAt : string;
  updatedAt : string
}.

Record QuickCommandsFile : Type := mkQuickCommandsFile {
  commands : gmap string QuickCommand;
  version : string;
  file_createdAt : string;
  file_updatedAt : string
}.

(** [Partial<QuickCommandsFile>]: each member may be missing. *)
Record PartialFile : Type := mkPartialFile {
  p_commands : option (gmap string QuickCommand);
  p_version : option string;
  p_createdAt : option string;
  p_updatedAt : option string
}.

Definition whole (d : QuickCommandsFile) : PartialFile :=
  mkPartialFile (Some (commands d)) (Some (version d))
                (Some (file_createdAt d)) (Some (file_updatedAt d)).

(** The manager and its file: [file] is what [quick-commands.json] parses
    to, [None] when reading it fails; [defaultQuickCommands] is the object
    the manager holds, returned by reference in that case. *)
Record store : Type := mkStore {
  defaultQuickCommands : QuickCommandsFile;
  file : option QuickCommandsFile
}.

Definition getQuickCommands (st : store) : QuickCommandsFile :=
  match file st with
  | Some d => d
  | None => defaultQuickCommands st
  end.

(** [{...currentCommands, ...quickCommands, updatedAt: now}], written out. *)
Definition saveQuickCommands (quickCommands : PartialFile) (now : string)
    (st : store) : store :=
  let currentCommands := getQuickCommands st in
  let updatedCommands :=
    mkQuickCommandsFile
      (default (commands currentCommands) (p_commands quickCommands))
      (default (version currentCommands) (p_version quickCommands))
      (default (file_createdAt currentCommands) (p_createdAt quickCommands))
      now in
  mkStore (defaultQuickCommands st) (Some updatedCommands).

(** [quickCommands.commands[name] = {...}] mutates the object that
    [getQuickCommands] returned: a fresh parse of the file, or the manager's
    own default object when the file could not be read. *)
Definition addQuickCommand (name : string) (parameters : list string)
    (template : string) (description : option string) (now : string)
    (st : store) : store :=
  let quickCommands := getQuickCommands st in
  let mutated :=
    mkQuickCommandsFile
      (<[name := mkQuickCommand name parameters template description now now]>
         (commands quickCommands))
      (version quickCommands) (file_createdAt quickCommands)
      (file_updatedAt quickCommands) in
  let st' :=
    match file st with
    | Some _ => st
    | None => mkStore mutated None
    end in
  saveQuickCommands (whole mutated) now st'.

(** The constructor in a directory that has no file yet: the default
    document, and the file written from it. *)
Definition create (now : string) : store :=
  let defaults := mkQuickCommandsFile ∅ "1.0.0" now now in
  saveQuickCommands (whole defaults) now (mkStore defaults None).

Definition getQuickCommand (st : store) (name : string) : option QuickCommand :=
  commands (getQuickCommands st) !! name.

(** *** String.prototype.replace with a global pattern and a string *)

(** GetSubstitution of ECMAScript for a match without capture groups:
    [$$], [$&], [$`] and [$'] are expanded; a [$] before a digit or [<]
    refers to a group that does not exist and stays as written. [str] is the
    subject string and [position] the offset of the match in it. *)
Fixpoint GetSubstitution (matched str : string) (position : nat)
    (replacement : string) : string :=
  match replacement with
  | "" => ""
  | String c r =>
    if Ascii.eqb c dollar then
      match r with
      | String d r' =>
        if Ascii.eqb d "$" then
          String dollar (GetSubstitution matched str position r')
        else if Ascii.eqb d "&" then
          matched ++ GetSubstitution matched str position r'
        else if Ascii.eqb d "`" then
          take position str ++ GetSubstitution matched str position r'
        else if Ascii.eqb d "'" then
          drop (position + String.length matched) str
            ++ GetSubstitution matched str position r'
        else String dollar (GetSubstitution matched str position r)
      | "" => String dollar ""
      end
    else String c (GetSubstitution matched str position r)
  end.

(** The characters that stand for themselves in the source of a RegExp
    built from a parameter name. *)
Definition is_word_char (c : ascii) : bool :=
  let n := nat_of_ascii c in
  ((97 <=? n) && (n <=? 122) || (65 <=? n) && (n <=? 90)
   || (48 <=? n) && (n <=? 57) || (n =? 95))%nat%bool.

Fixpoint word_chars (s : string) : bool :=
  match s with
  | "" => true
  | String c s' => (is_word_char c && word_chars s')%bool
  end.

Lemma drop_length_le (n : nat) (s : string) :
  (String.length (drop n s) <= String.length s)%nat.
Proof.
  revert s; induction n as [|n IH]; intros [|c s]; simpl; auto.
Qed.

(** [subject.replace(new RegExp('\\$' + param, 'g'), replacement)], for a
    [param] of word characters, whose pattern matches the text [$param] and
    nothing else. The subject is split at the scanning offset into [before]
    and [rest]; matches are found left to right in the subject itself and
    never in inserted text. *)
Equations replace_placeholder (param replacement before rest : string) : string
  by wf (String.length rest) lt :=
  replace_placeholder param replacement before "" := "";
  replace_placeholder param replacement before (String c rest')
    with startsWith (String c rest') (String dollar param) := {
    | true :=
        GetSubstitution (String dollar param) (before ++ String c rest')
                        (String.length before) replacement
        ++ replace_placeholder param replacement
             (before ++ String dollar param) (drop (String.length param) rest');
    | false :=
        String c (replace_placeholder param replacement
                    (before ++ char_string c) rest') }.
Next Obligation.
  pose proof (drop_length_le (String.length param) rest'). lia.
Qed.

(** [args[index]], which is [undefined] past the end and is then converted
    to a string by [replace]. *)
Definition arg_at (args : list string) (index : nat) : string :=
  nth index args "undefined".

(** [command.parameters.forEach((param, index) => ...)] on [result]. *)
Fixpoint substitute (params : list string) (index : nat) (args : list string)
    (result : string) : string :=
  match params with
  | [] => result
  | param :: params' =>
    substitute params' (S index) args
      (replace_placeholder param (arg_at args index) "" result)
  end.

Definition executeQuickCommand (st : store) (name : string) (args : list string)
    : result string :=
  match getQuickCommand st name with
  | None => Throw (Error ("Quick command '" ++ name ++ "' not found"))
  | Some command =>
    if negb (length args =? length (parameters command))%nat then
      Throw (Error ("Expected " ++ number_to_string (length (parameters command))
                    ++ " arguments for '" ++ name ++ "', got "
                    ++ number_to_string (length args)))
    else Return (substitute (parameters command) 0 args (template command))
  end.

(** *** Parameter detection *)

(** [a-zA-Z_] and [a-zA-Z0-9_]. *)
Definition is_ident_start (c : ascii) : bool :=
  let n := nat_of_ascii c in
  ((97 <=? n) && (n <=? 122) || (65 <=? n) && (n <=? 90) || (n =? 95))%nat%bool.

Definition is_ident_char (c : ascii) : bool := is_word_char c.

(** The greedy [[a-zA-Z0-9_]*]: the longest run at the head of [s], and
    what follows it. *)
Fixpoint ident_run (s : string) : string * string :=
  match s with
  | "" => ("", "")
  | String c s' =>
    if is_ident_char c
    then let (run, after) := ident_run s' in (String c run, after)
    else ("", s)
  end.

(** [paramRegex.exec(template)] for the global pattern of the source: a
    dollar sign followed by group 1, which is one of [a-zA-Z_] and then the
    longest run of [a-zA-Z0-9_]. [rest] is the template from [lastIndex] on;
    a match yields its group 1 and the template from the new [lastIndex] on,
    a failure yields [null]. *)
Fixpoint exec (rest : string) : option (string * string) :=
  match rest with
  | "" => None
  | String c rest' =>
    if Ascii.eqb c dollar then
      match rest' with
      | String d rest'' =>
        if is_ident_start d
        then let (run, after) := ident_run rest'' in Some (String d run, after)
        else exec rest'
      | "" => None
      end
    else exec rest'
  end.

Lemma ident_run_length (s : string) :
  (String.length (snd (ident_run s)) <= String.length s)%nat.
Proof.
  induction s as [|c s IH]; simpl; auto.
  destruct (is_ident_char c); simpl; auto.
  destruct (ident_run s); simpl in *; lia.
Qed.

Lemma exec_shorter (rest param after : string) :
  exec rest = Some (param, after) ->
  (String.length after < String.length rest)%nat.
Proof.
  induction rest as [|c rest IH]; simpl; [discriminate|].
  destruct (Ascii.eqb c dollar).
  - destruct rest as [|d rest'']; [discriminate|].
    destruct (is_ident_start d).
    + pose proof (ident_run_length rest'') as Hl.
      destruct (ident_run rest''); intros [= <- <-]. simpl in *. lia.
    + intros H. apply IH in H. lia.
  - intros H. apply IH in H. lia.
Qed.

(** A value together with the equation that names it, so that the loop
    below remembers which call of [exec] produced [after]. *)
Definition inspect {A : Type} (a : A) : {b : A | a = b} := exist _ a eq_refl.

(** The [while] loop with its two accumulators. *)
Equations detect (rest : string) (parameters : list string) (seen : gset string)
  : list string by wf (String.length rest) lt :=
  detect rest parameters seen with inspect (exec rest) := {
    | exist _ None _ := parameters;
    | exist _ (Some (param, after)) Hexec :=
        if decide (param ∈ seen)
        then detect after parameters seen
        else detect after (parameters ++ [param]) (seen ∪ {[param]}) }.
Next Obligation. eapply exec_shorter; eassumption. Qed.
Next Obligation. eapply exec_shorter; eassumption. Qed.

Definition parseParametersFromTemplate (template : string) : list string :=
  detect template [] ∅.

(** The constructor in general. [found] is [None] when the file does not
    exist, and the defaults are then saved; otherwise it is what the file
    parses to ([None] when it cannot be read) and the file is left as it
    is. [create] is the case of a directory without the file. *)
Definition construct (now : string) (found : option (option QuickCommandsFile))
    : store :=
  let defaults := mkQuickCommandsFile ∅ "1.0.0" now now in
  match found with
  | None => saveQuickCommands (whole defaults) now (mkStore defaults None)
  | Some parsed => mkStore defaults parsed
  end.

(** *** Removal, reset, export and import *)

(** [delete quickCommands.commands[name]] acts on the object that
    [getQuickCommands] returned, as the assignment of [addQuickCommand]
    does. *)
Definition removeQuickCommand (name : string) (now : string) (st : store)
    : bool * store :=
  let quickCommands := getQuickCommands st in
  match commands quickCommands !! name with
  | None => (false, st)
  | Some _ =>
    let mutated :=
      mkQuickCommandsFile (delete name (commands quickCommands))
        (version quickCommands) (file_createdAt quickCommands)
        (file_updatedAt quickCommands) in
    let st' :=
      match file st with
      | Some _ => st
      | None => mkStore mutated None
      end in
    (true, saveQuickCommands (whole mutated) now st')
  end.

(** [{...this.defaultQuickCommands, createdAt: now, updatedAt: now}],
    saved. *)
Definition resetQuickCommands (now : string) (st : store) : store :=
  let resetCommands :=
    mkPartialFile (Some (commands (defaultQuickCommands st)))
                  (Some (version (defaultQuickCommands st)))
                  (Some now) (Some now) in
  saveQuickCommands resetCommands now st.

(** The files at other paths than the manager's own. *)
Definition files : Type := gmap string (Files.content PartialFile).

Definition exportQuickCommands (filePath : string) (st : store) (fs : files)
    : files :=
  <[filePath := Files.Parsed (whole (getQuickCommands st))]> fs.

(** An exception inside the [try] is caught and thrown again under the
    prefix of the [catch]. *)
Definition importQuickCommands (filePath : string) (now : string) (st : store)
    (fs : files) : result unit * store :=
  match fs !! filePath with
  | None => (Throw (Error ("Quick commands file not found: " ++ filePath)), st)
  | Some (Files.Unparsable error) =>
    (Throw (Error ("Failed to import quick commands: " ++ error)), st)
  | Some (Files.Parsed importedCommands) =>
    match p_commands importedCommands with
    | None =>
      (Throw (Error ("Failed to import quick commands: "
                     ++ "Error: Invalid quick commands file: missing commands object")),
       st)
    | Some _ => (Return tt, saveQuickCommands importedCommands now st)
    end
  end.

End QuickCommandManager.

(** ** The alias registry: [ContractManager] *)

Module ContractManager.

(** [abi] holds opaque JSON values, kept here as their JSON text. *)
Record ContractInfo : Type := mkContractInfo {
  alias : string;
  address : string;
  name : option string;
  description : option string;
  network : option string;
  abi : option (list string);
  createdAt : string;
  updatedAt : string
}.

Record ContractsFile : Type := mkContractsFile {
  contracts : gmap string ContractInfo;
  version : string;
  file_createdAt : string;
  file_updatedAt : string
}.

Record PartialFile : Type := mkPartialFile {
  p_contracts : option (gmap string ContractInfo);
  p_version : option string;
  p_createdAt : option string;
  p_updatedAt : option string
}.

Definition whole (d : ContractsFile) : PartialFile :=
  mkPartialFile (Some (contracts d)) (Some (version d))
                (Some (file_createdAt d)) (Some (file_updatedAt d)).

(** The [options] argument of [addContract]. *)
Record contract_options : Type := mkOptions {
  o_name : option string;
  o_description : option string;
  o_network : option string;
  o_abi : option (list string)
}.

(** The [updates] argument of [updateContract]; [None] is a key that the
    object does not have. *)
Record contract_updates : Type := mkUpdates {
  u_address : option string;
  u_name : option string;
  u_description : option string;
  u_network : option string;
  u_abi : option (list string)
}.

(** The manager and [contracts.json], as for the quick commands. *)
Record store : Type := mkStore {
  defaultContracts : ContractsFile;
  file : option ContractsFile
}.

Definition getContracts (st : store) : ContractsFile :=
  match file st with
  | Some d => d
  | None => defaultContracts st
  end.

Definition saveContracts (contracts' : PartialFile) (now : string)
    (st : store) : store :=
  let currentContracts := getContracts st in
  let updatedContracts :=
    mkContractsFile
      (default (contracts currentContracts) (p_contracts contracts'))
      (default (version currentContracts) (p_version contracts'))
      (default (file_createdAt currentContracts) (p_createdAt contracts'))
      now in
  mkStore (defaultContracts st) (Some updatedContracts).

(** The in-place assignment [contracts.contracts[alias] = info] followed by
    [saveContracts(contracts)]. *)
Definition assign_and_save (alias : string) (info : ContractInfo)
    (now : string) (st : store) : store :=
  let contracts' := getContracts st in
  let mutated :=
    mkContractsFile (<[alias := info]> (contracts contracts'))
      (version contracts') (file_createdAt contracts')
      (file_updatedAt contracts') in
  let st' :=
    match file st with
    | Some _ => st
    | None => mkStore mutated None
    end in
  saveContracts (whole mutated) now st'.

Definition invalid_address : exn := Error "Invalid contract address format".

(** [!address.startsWith('0x') || address.length !== 42]. *)
Definition bad_format (address : string) : bool :=
  (negb (startsWith address "0x") || negb (String.length address =? 42)%nat)%bool.

(** A call returns its outcome and the store it leaves behind. *)
Definition addContract (alias address : string) (options : contract_options)
    (now : string) (st : store) : result unit * store :=
  if bad_format address then (Throw invalid_address, st)
  else
    (Return tt,
     assign_and_save alias
       (mkContractInfo alias address (o_name options) (o_description options)
                       (o_network options) (o_abi options) now now)
       now st).

(** The constructor in a directory that has no file yet: the default
    document, and the file written from it. *)
Definition create (now : string) : store :=
  let defaults := mkContractsFile ∅ "1.0.0" now now in
  saveContracts (whole defaults) now (mkStore defaults None).

Definition getContract (st : store) (alias : string) : option ContractInfo :=
  contracts (getContracts st) !! alias.

(** [alias in contracts.contracts]. *)
Definition hasContract (st : store) (alias : string) : bool :=
  bool_decide (is_Some (contracts (getContracts st) !! alias)).

(** [{...contract, ...updates, updatedAt: now}]. *)
Definition apply_updates (contract : ContractInfo) (updates : contract_updates)
    (now : string) : ContractInfo :=
  mkContractInfo (alias contract)
    (default (address contract) (u_address updates))
    (match u_name updates with Some n => Some n | None => name contract end)
    (match u_description updates with Some d => Some d | None => description contract end)
    (match u_network updates with Some n => Some n | None => network contract end)
    (match u_abi updates with Some a => Some a | None => abi contract end)
    (createdAt contract) now.

(** [updates.address && (...)]: the format is looked at only when the
    address is a non-empty string. *)
Definition rejects_update (updates : contract_updates) : bool :=
  match u_address updates with
  | Some a => (truthy a && bad_format a)%bool
  | None => false
  end.

Definition updateContract (alias : string) (updates : contract_updates)
    (now : string) (st : store) : result bool * store :=
  match contracts (getContracts st) !! alias with
  | None => (Return false, st)
  | Some contract =>
    if rejects_update updates then (Throw invalid_address, st)
    else (Return true, assign_and_save alias (apply_updates contract updates now) now st)
  end.

Definition resolveAddress (st : store) (aliasOrAddress : string) : string :=
  if (startsWith aliasOrAddress "0x" && (String.length aliasOrAddress =? 42)%nat)%bool
  then aliasOrAddress
  else match getContract st aliasOrAddress with
       | Some contract => address contract
       | None => aliasOrAddress
       end.

(** The constructor in general. [found] is [None] when the file does not
    exist, and the defaults are then saved; otherwise it is what the file
    parses to ([None] when it cannot be read) and the file is left as it
    is. [create] is the case of a directory without the file. *)
Definition construct (now : string) (found : option (option ContractsFile))
    : store :=
  let defaults := mkContractsFile ∅ "1.0.0" now now in
  match found with
  | None => saveContracts (whole defaults) now (mkStore defaults None)
  | Some parsed => mkStore defaults parsed
  end.

(** *** Removal, reset, export and import *)

Definition removeContract (alias : string) (now : string) (st : store)
    : bool * store :=
  let contracts' := getContracts st in
  match contracts contracts' !! alias with
  | None => (false, st)
  | Some _ =>
    let mutated :=
      mkContractsFile (delete alias (contracts contracts'))
        (version contracts') (file_createdAt contracts')
        (file_updatedAt contracts') in
    let st' :=
      match file st with
      | Some _ => st
      | None => mkStore mutated None
      end in
    (true, saveContracts (whole mutated) now st')
  end.

Definition resetContracts (now : string) (st : store) : store :=
  let resetContracts' :=
    mkPartialFile (Some (contracts (defaultContracts st)))
                  (Some (version (defaultContracts st)))
                  (Some now) (Some now) in
  saveContracts resetContracts' now st.

(** The files at other paths than the manager's own. *)
Definition files : Type := gmap string (Files.content PartialFile).

Definition exportContracts (filePath : string) (st : store) (fs : files) : files :=
  <[filePath := Files.Parsed (whole (getContracts st))]> fs.

Definition importContracts (filePath : string) (now : string) (st : store)
    (fs : files) : result unit * store :=
  match fs !! filePath with
  | None => (Throw (Error ("Contracts file not found: " ++ filePath)), st)
  | Some (Files.Unparsable error) =>
    (Throw (Error ("Failed to import contracts: " ++ error)), st)
  | Some (Files.Parsed importedContracts) =>
    match p_contracts importedContracts with
    | None =>
      (Throw (Error ("Failed to import contracts: "
                     ++ "Error: Invalid contracts file: missing contracts object")),
       st)
    | Some _ => (Return tt, saveContracts importedContracts now st)
    end
  end.

End ContractManager.

(** ** Wallet records and quick calls of [WalletManager] *)

Module Wallets.

Record WalletInfo : Type := mkWalletInfo {
  alias : string;
  address : string;
  keystorePath : option string;
  isHD : option bool;
  hdPath : option string;
  network : option string
}.

Section Manager.

(** The wallet objects of ethers are kept as they are. *)
Context {ManagedWallet : Type}.

(** The members of the manager that the operations below touch, with
    [wallet-info.json] ([None] while it does not exist) and the set of
    paths at which a keystore file exists. *)
Record manager : Type := mkManager {
  wallets : gmap string ManagedWallet;
  walletInfo : gmap string WalletInfo;
  currentNetwork : string;
  infoFile : option (gmap string WalletInfo);
  keystores : gset string
}.

Definition saveWalletInfo (m : manager) : manager :=
  mkManager (wallets m) (walletInfo m) (currentNetwork m)
            (Some (walletInfo m)) (keystores m).

Definition getWallet (m : manager) (alias : string) : option ManagedWallet :=
  wallets m !! alias.

Definition getWalletInfo (m : manager) (alias : string) : option WalletInfo :=
  walletInfo m !! alias.

Definition hasWallet (m : manager) (alias : string) : bool :=
  bool_decide (is_Some (walletInfo m !! alias)).

(** [info.keystorePath && fs.existsSync(info.keystorePath)]. *)
Definition keystore_to_unlink (m : manager) (info : WalletInfo) : option string :=
  match keystorePath info with
  | Some path =>
    if (truthy path && bool_decide (path ∈ keystores m))%bool then Some path else None
  | None => None
  end.

Definition removeWallet (alias : string) (m : manager) : bool * manager :=
  match walletInfo m !! alias with
  | None => (false, m)
  | Some info =>
    let files :=
      match keystore_to_unlink m info with
      | Some path => keystores m ∖ {[path]}
      | None => keystores m
      end in
    (true,
     saveWalletInfo
       (mkManager (delete alias (wallets m)) (delete alias (walletInfo m))
                  (currentNetwork m) (infoFile m) files))
  end.

Definition setWalletNetwork (alias network' : string) (m : manager)
    : bool * manager :=
  match walletInfo m !! alias with
  | None => (false, m)
  | Some info =>
    let info' :=
      mkWalletInfo (Wallets.alias info) (address info) (keystorePath info)
                   (isHD info) (hdPath info) (Some network') in
    (true,
     saveWalletInfo
       (mkManager (wallets m) (<[alias := info']> (walletInfo m))
                  (currentNetwork m) (infoFile m) (keystores m)))
  end.

(** [info?.network || this.currentNetwork]. *)
Definition getWalletNetwork (m : manager) (alias : string) : string :=
  match getWalletInfo m alias with
  | Some info =>
    match network info with
    | Some n => if truthy n then n else currentNetwork m
    | None => currentNetwork m
    end
  | None => currentNetwork m
  end.

(** What [callContract] hands to the contract object of ethers. *)
Record contract_call : Type := ContractCall {
  call_alias : string;
  call_address : string;
  call_method : string;
  call_arguments : list string;
  call_rpcUrl : option string;
  call_options : WalletManager.call_options
}.

(** [callContract] up to the point where ethers takes over: the wallet
    must be loaded, and the contract reference is resolved. *)
Definition callContract (m : manager) (contracts : ContractManager.store)
    (alias contractAddress methodSignature : string) (args : list string)
    (rpcUrl : option string) (options : WalletManager.call_options)
    : result contract_call :=
  match getWallet m alias with
  | None => Throw (Error ("Wallet '" ++ alias ++ "' not loaded. Call loadWallet first."))
  | Some _ =>
    Return (ContractCall alias
              (ContractManager.resolveAddress contracts contractAddress)
              methodSignature args rpcUrl options)
  end.

(** [WalletManager.executeQuickCommand]: expand, reconstruct, resolve the
    contract reference and call. *)
Definition executeQuickCommand (m : manager)
    (quickCommands : QuickCommandManager.store)
    (contracts : ContractManager.store) (name : string) (args : list string)
    : result contract_call :=
  match QuickCommandManager.executeQuickCommand quickCommands name args with
  | Throw e => Throw e
  | Return expandedCommand =>
    match WalletManager.parseQuickCommand expandedCommand with
    | Throw e => Throw e
    | Return parts =>
      let resolvedWalletAlias := WalletManager.alias parts in
      let resolvedContractAddress :=
        ContractManager.resolveAddress contracts (WalletManager.contractAddress parts) in
      callContract m contracts resolvedWalletAlias resolvedContractAddress
        (WalletManager.methodSignature parts) (WalletManager.call_args parts)
        (WalletManager.rpcUrl parts) (WalletManager.options parts)
    end
  end.

End Manager.

End Wallets.

(** ** The [quick add] command of the CLI *)

Module Cli.

(** The characters that [\s] matches and [trim] removes, among the first
    256 code units: tab, line feed, vertical tab, form feed, carriage
    return, space and no-break space. *)
Definition is_js_whitespace (c : ascii) : bool :=
  let n := nat_of_ascii c in
  ((n =? 32) || (9 <=? n) && (n <=? 13) || (n =? 160))%nat%bool.

Fixpoint trimStart (s : string) : string :=
  match s with
  | "" => ""
  | String c s' => if is_js_whitespace c then trimStart s' else s
  end.

(** [s.trimEnd()]: a character stays when it is not whitespace or when
    something stays after it. *)
Fixpoint trimEnd (s : string) : string :=
  match s with
  | "" => ""
  | String c s' =>
    match trimEnd s' with
    | "" => if is_js_whitespace c then "" else String c ""
    | rest => String c rest
    end
  end.

Definition trim (s : string) : string := trimEnd (trimStart s).

(** [s.split(/\s+/)]: the texts between the runs of whitespace, the empty
    texts before a leading run and after a trailing run included.
    [piece] is the text gathered since the last run and [in_run] says that
    the previous character belonged to a run. *)
Fixpoint split_whitespace (s piece : string) (in_run : bool) : list string :=
  match s with
  | "" => [piece]
  | String c s' =>
    if is_js_whitespace c then
      if in_run then split_whitespace s' "" true
      else piece :: split_whitespace s' "" true
    else split_whitespace s' (piece ++ char_string c) false
  end.

(** [parameters.trim().split(/\s+/).filter(p => p.length > 0)]. *)
Definition paramList (parameters : string) : list string :=
  List.filter (fun p => (0 <? String.length p)%nat)
              (split_whitespace (trim parameters) "" false).

(** [paramList.length > 0 ? paramList : detectedParams]. *)
Definition finalParams (parameters template : string) : list string :=
  let detectedParams := QuickCommandManager.parseParametersFromTemplate template in
  if (0 <? length (paramList parameters))%nat then paramList parameters
  else detectedParams.

End Cli.

(** ** The specification's reading of the same operations

    Definitions that follow the words of the specification rather than the
    code; the theorems below compare the two. *)

Module Spec.

(** *** Tokenizer (section 4.3) *)

(** What a character of the input is, once quoting is taken into account:
    a token boundary, a quote character that opens or closes a span (it is
    consumed), or a character of a token. *)
Inductive role : Type :=
| Boundary
| Mark
| Lit (c : ascii).

(** [open] is the active quote character while inside a quoted span. *)
Fixpoint classify (sep : ascii -> bool) (open : option ascii) (s : string)
    : list role :=
  match s with
  | "" => []
  | String c s' =>
    match open with
    | None =>
      if WalletManager.is_quote c then Mark :: classify sep (Some c) s'
      else if sep c then Boundary :: classify sep None s'
      else Lit c :: classify sep None s'
    | Some q =>
      if Ascii.eqb c q then Mark :: classify sep None s'
      else Lit c :: classify sep (Some q) s'
    end
  end.

(** The text before the first boundary and the texts between the later
    boundaries. *)
Fixpoint pieces (rs : list role) : string * list string :=
  match rs with
  | [] => ("", [])
  | Boundary :: rs' => let (g, gs) := pieces rs' in ("", g :: gs)
  | Mark :: rs' => pieces rs'
  | Lit c :: rs' => let (g, gs) := pieces rs' in (String c g, gs)
  end.

(** Tokens are the non-empty pieces. *)
Definition tokenize (sep : ascii -> bool) (text : string) : list string :=
  let (g, gs) := pieces (classify sep None text) in
  List.filter truthy (g :: gs).

Definition is_space (c : ascii) : bool := Ascii.eqb c space.

(** Space, tab, line feed, vertical tab, form feed, carriage return. *)
Definition is_whitespace (c : ascii) : bool :=
  let n := nat_of_ascii c in
  ((n =? 32) || (9 <=? n) && (n <=? 13))%nat%bool.

(** [s] leaves the tokenizer outside any quoted span. *)
Definition balanced (s : string) : bool :=
  negb (WalletManager.inQuotes
          (WalletManager.scan s (WalletManager.Scanner [] "" false ""))).

Fixpoint mentions (c : ascii) (s : string) : bool :=
  match s with
  | "" => false
  | String d s' => (Ascii.eqb d c || mentions c s')%bool
  end.

Fixpoint spaces (n : nat) : string :=
  match n with
  | O => ""
  | S n' => String space (spaces n')
  end.

(** *** Alias entries (section 3) *)

Definition is_hex_digit (c : ascii) : bool :=
  let n := nat_of_ascii c in
  ((48 <=? n) && (n <=? 57) || (97 <=? n) && (n <=? 102)
   || (65 <=? n) && (n <=? 70))%nat%bool.

Fixpoint all_hex (s : string) : bool :=
  match s with
  | "" => true
  | String c s' => (is_hex_digit c && all_hex s')%bool
  end.

(** The fixed prefix and exactly 40 hexadecimal characters. *)
Definition is_address_literal (a : string) : bool :=
  (startsWith a "0x" && (String.length (drop 2 a) =? 40)%nat
   && all_hex (drop 2 a))%bool.

(** *** Expander (section 4.4) *)

(** [pat] occurs somewhere in [s]. *)
Fixpoint occurs (pat s : string) : bool :=
  (startsWith s pat
   || match s with
      | "" => false
      | String _ s' => occurs pat s'
      end)%bool.



(** A value that [replace] inserts as it is: it holds none of the
    replacement patterns [$$], [$&], [$`] and [$']. *)
Fixpoint plain (v : string) : bool :=
  match v with
  | "" => true
  | String c r =>
    if Ascii.eqb c dollar then
      match r with
      | String d _ =>
        (negb (Ascii.eqb d "$" || Ascii.eqb d "&" || Ascii.eqb d "`" || Ascii.eqb d "'")
         && plain r)%bool
      | "" => true
      end
    else plain r
  end.

(** *** Parameter detection (section 4.2) *)

(** The identifier of the placeholder that starts at the head of [s]: a
    sigil, a first character that is not a digit, and the identifier
    characters that follow. *)
Definition placeholder_here (s : string) : option string :=
  match s with
  | String c (String d r) =>
    if (Ascii.eqb c dollar && QuickCommandManager.is_ident_start d)%bool
    then Some (String d (fst (QuickCommandManager.ident_run r)))
    else None
  | _ => None
  end.

(** The identifiers of all placeholders of [s], by position. *)
Fixpoint occurrences (s : string) : list string :=
  match s with
  | "" => []
  | String _ s' =>
    match placeholder_here s with
    | Some x => x :: occurrences s'
    | None => occurrences s'
    end
  end.

(** Each element once, where it first appears. *)
Fixpoint first_occurrences (l : list string) : list string :=
  match l with
  | [] => []
  | x :: l' => x :: List.filter (fun y => negb (y =? x)) (first_occurrences l')
  end.

Definition is_identifier (x : string) : bool :=
  match x with
  | String d r =>
    (QuickCommandManager.is_ident_start d && QuickCommandManager.word_chars r)%bool
  | "" => false
  end.

(** [post] starts with an identifier character: an identifier before it
    would go on. *)
Definition continues (post : string) : bool :=
  match post with
  | String c _ => QuickCommandManager.is_ident_char c
  | "" => false
  end.

(** *** Reconstruction (section 4.5) *)

Definition is_verb (t : string) : bool := ((t =? "call") || (t =? "send"))%bool.

(** The tokens that are left once a leading verb, if any, is discarded. *)
Definition data_tokens (parts : list string) : list string :=
  match parts with
  | t :: rest => if is_verb t then rest else parts
  | [] => []
  end.

(** The four recognized flag names. *)
Definition recognized (t : string) : bool :=
  ((t =? "--rpc-url") || (t =? "--gas-limit") || (t =? "--gas-price")
   || (t =? "--value"))%bool.


End Spec.

(** ** Definitions used by the statements and the proofs *)

Module CM := ContractManager.
Module QM := QuickCommandManager.

(** The scanner state that corresponds to an open (or no) quoted span. *)
Definition scanner_of (a : list string) (cur : string) (open : option ascii)
    : WalletManager.scanner :=
  WalletManager.Scanner a cur (bool_decide (is_Some open))
    (match open with Some q => char_string q | None => "" end).

(** A stretch without spaces and quote characters. *)
Fixpoint plain_word (w : string) : bool :=
  match w with
  | "" => true
  | String c w' =>
    (negb (WalletManager.is_quote c) && negb (Ascii.eqb c space) && plain_word w')%bool
  end.

(** The locals of the option loop before its first iteration. *)
Definition no_options : WalletManager.option_scan :=
  WalletManager.OptionScan [] None (WalletManager.CallOptions None None None).

(** One pass over a whole text: [$param] replaced by [v] throughout. *)
Definition pass (param v s : string) : string :=
  QM.replace_placeholder param v "" s.

Definition fresh (seen : gset string) (y : string) : bool :=
  negb (bool_decide (y ∈ seen)).

(** *** Sample documents *)

Definition t0 : string := "2024-01-01T00:00:00.000Z".
Definition t1 : string := "2024-01-02T00:00:00.000Z".

(** A template whose body holds [$amount] and the longer [$amountMax]. *)
Definition pay_commands : QM.store :=
  QM.addQuickCommand "pay" ["amount"] "send $amountMax $amount" None t0 (QM.create t0).

(** A template with two parameters of which the body names the first. *)
Definition echo_commands : QM.store :=
  QM.addQuickCommand "echo" ["a"; "b"] "$a" None t0 (QM.create t0).

Definition address_a : string := "0xaaaaaaaaaaaaaaaaaaaaaaaaaaaaaaaaaaaaaaaa".
Definition address_b : string := "0xbbbbbbbbbbbbbbbbbbbbbbbbbbbbbbbbbbbbbbbb".
(** The prefix and forty characters, none of them hexadecimal. *)
Definition address_z : string := "0xzzzzzzzzzzzzzzzzzzzzzzzzzzzzzzzzzzzzzzzz".

Definition no_metadata : CM.contract_options := CM.mkOptions None None None None.

Definition token_contracts : CM.store :=
  snd (CM.addContract "token" address_a no_metadata t0 (CM.create t0)).

Definition only_address (a : string) : CM.contract_updates :=
  CM.mkUpdates (Some a) None None None None.

(** The example of section 8 of the specification. *)
Definition transfer_command : string :=
  "call my-wallet token-alias "
  ++ String dquote ("transfer(address,uint256)"
  ++ String dquote " 0xabc 1000 --rpc-url http://x --wait").

Definition tab : ascii := "009"%char.

(** [call $w $addr "m($x)"], followed by a second [$w]. *)
Definition detect_example : string :=
  "call $w $addr " ++ String dquote ("m($x)" ++ String dquote " $w").

(** *** Properties of stores *)

(** Every stored address has the format that [addContract] checks. *)
Definition well_formed (st : CM.store) : Prop :=
  forall k c, CM.getContract st k = Some c -> CM.bad_format (CM.address c) = false.

(** The contracts file can be read and the default document of the manager
    holds no entry, as after the constructor. *)
Definition pristine (st : CM.store) : Prop :=
  CM.contracts (CM.defaultContracts st) = ∅ /\ is_Some (CM.file st).

Definition pristine_commands (st : QM.store) : Prop :=
  QM.commands (QM.defaultQuickCommands st) = ∅ /\ is_Some (QM.file st).

Definition token_info : CM.ContractInfo :=
  CM.mkContractInfo "token" address_a None None None None t0 t0.

Definition pay_command : QM.QuickCommand :=
  QM.mkQuickCommand "pay" ["amount"] "send $amountMax $amount" None t0 t0.

(** *** Texts and token lists *)

(** The characters of tokens among classified characters, in order. *)
Fixpoint literal_text (rs : list Spec.role) : string :=
  match rs with
  | [] => ""
  | Spec.Lit c :: rs' => String c (literal_text rs')
  | _ :: rs' => literal_text rs'
  end.

(** The tokens put one after the other. *)
Definition glue (tokens : list string) : string :=
  fold_right String.append "" tokens.

(** A token that needs no quoting: not empty, without space and quote. *)
Definition bare_token (w : string) : bool := (truthy w && plain_word w)%bool.

Definition no_dashes (t : string) : bool := negb (startsWith t "--").

(** *** Sample wallets and parameter lists *)

Definition w_info : Wallets.WalletInfo :=
  Wallets.mkWalletInfo "w" address_b (Some "/keys/w-1.json") None None None.

(** A manager that knows the wallet [w] and has it loaded; the wallet
    object itself plays no part. *)
Definition one_wallet : @Wallets.manager unit :=
  Wallets.mkManager {[ "w" := tt ]} {[ "w" := w_info ]} "mainnet"
                    (Some {[ "w" := w_info ]}) {[ "/keys/w-1.json" ]}.

Definition give_commands : QM.store :=
  QM.addQuickCommand "give" ["to"; "amount"] "send w token give() $to $amount"
    None t0 (QM.create t0).

Fixpoint has_whitespace (s : string) : bool :=
  match s with
  | "" => false
  | String c s' => (Cli.is_js_whitespace c || has_whitespace s')%bool
  end.

Fixpoint blank (s : string) : bool :=
  match s with
  | "" => true
  | String c s' => (Cli.is_js_whitespace c && blank s')%bool
  end.

(** A name as [paramList] yields it: not empty and without whitespace. *)
Definition is_name (p : string) : bool := (truthy p && negb (has_whitespace p))%bool.

(** The running text after one pass per pair of a parameter and its
    value. *)
Definition passes (params args : list string) (body : string) : string :=
  fold_left (fun text pv => pass (fst pv) (snd pv) text) (combine params args) body.

(** * Theorems *)

(** ** Strings *)

#[local] Arguments String.append s1 s2 : simpl nomatch.

Lemma append_empty_r (s : string) : s ++ "" = s.
Proof. induction s as [|c s IH]; simpl; congruence. Qed.

Lemma append_assoc (a b c : string) : (a ++ b) ++ c = a ++ (b ++ c).
Proof. induction a as [|x a IH]; simpl; congruence. Qed.

Lemma append_length (a b : string) :
  String.length (a ++ b) = (String.length a + String.length b)%nat.
Proof. induction a as [|x a IH]; simpl; congruence. Qed.

Lemma truthy_false (s : string) : truthy s = false -> s = "".
Proof. destruct s; [reflexivity | discriminate]. Qed.

Lemma truthy_length (s : string) : truthy s = true -> (0 < String.length s)%nat.
Proof. destruct s; [discriminate | simpl; lia]. Qed.

(** ** The reconstructor *)

Section Reconstructor.

Import WalletManager.

Lemma recognized_cases (t : string) :
  Spec.recognized t = true ->
  t = "--rpc-url" \/ t = "--gas-limit" \/ t = "--gas-price" \/ t = "--value".
Proof.
  unfold Spec.recognized. intros H.
  repeat (apply orb_prop in H as [H|H]); apply String.eqb_eq in H; auto.
Qed.

Lemma recognized_prefix (t : string) :
  Spec.recognized t = true -> startsWith t "--" = true.
Proof.
  intros H. destruct (recognized_cases t H) as [->|[->|[->| ->]]]; reflexivity.
Qed.

Lemma recognized_false (t : string) :
  Spec.recognized t = false ->
  (t =? "--rpc-url") = false /\ (t =? "--gas-limit") = false
  /\ (t =? "--gas-price") = false /\ (t =? "--value") = false.
Proof.
  unfold Spec.recognized. intros H.
  repeat (apply orb_false_iff in H as [H ?]). auto.
Qed.

(** A token that starts with two dashes and is not a recognized flag is
    skipped, and the scan goes on with the very next token. *)
Lemma scan_options_unrecognized (t : string) (rest : list string) (st : option_scan) :
  startsWith t "--" = true -> Spec.recognized t = false ->
  scan_options (t :: rest) st = scan_options rest st.
Proof.
  intros Hp Hr. destruct (recognized_false t Hr) as (H1 & H2 & H3 & H4).
  cbn [scan_options]. rewrite Hp, H1, H2, H3, H4. destruct rest; reflexivity.
Qed.

(** A token that does not start with two dashes is pushed. *)
Lemma scan_options_positional (t : string) (rest : list string) (st : option_scan) :
  startsWith t "--" = false ->
  scan_options (t :: rest) st
  = scan_options rest (OptionScan (x_args st ++ [t]) (x_rpcUrl st) (x_options st)).
Proof.
  intros Hp.
  assert (Hr : Spec.recognized t = false).
  { destruct (Spec.recognized t) eqn:E; [|reflexivity].
    apply recognized_prefix in E. congruence. }
  destruct (recognized_false t Hr) as (H1 & H2 & H3 & H4).
  cbn [scan_options]. rewrite Hp, H1, H2, H3, H4. destruct rest; reflexivity.
Qed.

(** A recognized flag in the last position has no value to take. *)
Lemma scan_options_last_flag (f : string) (st : option_scan) :
  startsWith f "--" = true -> scan_options [f] st = st.
Proof. intros Hp. cbn [scan_options]. rewrite Hp. reflexivity. Qed.





(** What [parseQuickCommand] does with a token list that passes its length
    guard. *)
Lemma parseQuickCommand_data (command a c m : string) (rest : list string) :
  (4 <= length (parseCommandLine command))%nat ->
  Spec.data_tokens (parseCommandLine command) = a :: c :: m :: rest ->
  parseQuickCommand command =
  Return (QuickCall a c m (x_args (scan_options rest no_options))
                    (x_rpcUrl (scan_options rest no_options))
                    (x_options (scan_options rest no_options))).
Proof.
  unfold parseQuickCommand. intros Hlen Hdata.
  destruct (parseCommandLine command) as [|t parts]; [discriminate Hdata|].
  replace (length (t :: parts) <? 4)%nat with false
    by (symmetry; apply Nat.ltb_ge; exact Hlen).
  unfold Spec.data_tokens, Spec.is_verb in Hdata.
  change (part_at (t :: parts) 0) with t.
  destruct ((t =? "call") || (t =? "send"))%bool.
  - subst parts. reflexivity.
  - injection Hdata as -> ->. reflexivity.
Qed.

Lemma parseQuickCommand_short (command : string) :
  (length (parseCommandLine command) < 4)%nat ->
  parseQuickCommand command = Throw format_error.
Proof.
  unfold parseQuickCommand. intros Hlen.
  apply Nat.ltb_lt in Hlen. rewrite Hlen. reflexivity.
Qed.

End Reconstructor.

(** ** The expander *)

Section Expander.

Import QuickCommandManager.

Lemma startsWith_app (s p t : string) :
  startsWith s p = true -> startsWith (s ++ t) p = true.
Proof.
  revert s; induction p as [|b p IH]; intros s; [reflexivity|].
  destruct s as [|a s]; simpl; [discriminate|].
  intros H. apply andb_prop in H as [-> H]. simpl. auto.
Qed.

Lemma startsWith_self (p t : string) : startsWith (p ++ t) p = true.
Proof. induction p as [|b p IH]; simpl; [reflexivity|]. rewrite Ascii.eqb_refl. exact IH. Qed.

Lemma drop_app (p t : string) : drop (String.length p) (p ++ t) = t.
Proof. induction p as [|b p IH]; simpl; auto. Qed.

Lemma startsWith_split (s p : string) :
  startsWith s p = true -> s = p ++ drop (String.length p) s.
Proof.
  revert s; induction p as [|b p IH]; intros s; [reflexivity|].
  destruct s as [|a s]; simpl; [discriminate|].
  intros H. apply andb_prop in H as [Hab H]. apply Ascii.eqb_eq in Hab as ->.
  f_equal. auto.
Qed.

Lemma is_word_char_dollar (c : ascii) : is_word_char c = true -> Ascii.eqb c dollar = false.
Proof.
  intros H. destruct (Ascii.eqb_spec c dollar) as [->|]; [discriminate H | reflexivity].
Qed.

(** A name of word characters that starts a text which runs into a dollar
    sign lies before that dollar sign. *)
Lemma word_before_dollar (p : string) :
  word_chars p = true ->
  forall a x, startsWith (a ++ String dollar x) p = true -> startsWith a p = true.
Proof.
  induction p as [|d p IH]; intros Hp a x; [reflexivity|].
  simpl in Hp. apply andb_prop in Hp as [Hd Hp].
  destruct a as [|e a].
  - cbn [String.append startsWith]. intros H. apply andb_prop in H as [H _].
    apply Ascii.eqb_eq in H. subst d. discriminate Hd.
  - cbn [String.append startsWith]. intros H. apply andb_prop in H as [-> H].
    simpl. eauto.
Qed.

Lemma GetSubstitution_plain (v matched str : string) (position : nat) :
  Spec.plain v = true -> GetSubstitution matched str position v = v.
Proof.
  induction v as [|c r IH]; [reflexivity|].
  cbn [Spec.plain GetSubstitution]. destruct (Ascii.eqb c dollar) eqn:Hc.
  - apply Ascii.eqb_eq in Hc as ->. destruct r as [|d r']; [reflexivity|].
    intros H. apply andb_prop in H as [Hd Hr]. apply negb_true_iff in Hd.
    repeat (apply orb_false_iff in Hd as [Hd ?]).
    replace (Ascii.eqb d "$") with false by auto.
    replace (Ascii.eqb d "&") with false by auto.
    replace (Ascii.eqb d "`") with false by auto.
    replace (Ascii.eqb d "'") with false by auto.
    f_equal. apply IH, Hr.
  - intros H. f_equal. apply IH, H.
Qed.

(** The two cases of one step of the replacement. *)
Lemma replace_placeholder_hit (param replacement before rest : string) (c : ascii) :
  startsWith (String c rest) (String dollar param) = true ->
  replace_placeholder param replacement before (String c rest)
  = GetSubstitution (String dollar param) (before ++ String c rest)
                    (String.length before) replacement
    ++ replace_placeholder param replacement (before ++ String dollar param)
         (drop (String.length param) rest).
Proof. intros H. simp replace_placeholder. rewrite H. reflexivity. Qed.

Lemma replace_placeholder_miss (param replacement before rest : string) (c : ascii) :
  startsWith (String c rest) (String dollar param) = false ->
  replace_placeholder param replacement before (String c rest)
  = String c (replace_placeholder param replacement (before ++ char_string c) rest).
Proof. intros H. simp replace_placeholder. rewrite H. reflexivity. Qed.

(** Text without an occurrence is returned as it is. *)
Lemma replace_placeholder_none (param replacement : string) (s : string) :
  forall before,
    Spec.occurs (String dollar param) s = false ->
    replace_placeholder param replacement before s = s.
Proof.
  induction s as [|c s IH]; intros before Hocc.
  - simp replace_placeholder. reflexivity.
  - cbn [Spec.occurs] in Hocc. apply orb_false_iff in Hocc as [Hhead Htail].
    rewrite replace_placeholder_miss by exact Hhead.
    f_equal. apply IH, Htail.
Qed.

(** For a plain value the offset of the match plays no part. *)
Lemma replace_placeholder_before (param v : string) (n : nat) :
  Spec.plain v = true ->
  forall s before before',
    (String.length s <= n)%nat ->
    replace_placeholder param v before s = replace_placeholder param v before' s.
Proof.
  intros Hv. induction n as [|n IH]; intros s before before' Hn.
  - destruct s; [simp replace_placeholder; reflexivity | simpl in Hn; lia].
  - destruct s as [|c s]; [simp replace_placeholder; reflexivity|].
    simpl in Hn.
    destruct (startsWith (String c s) (String dollar param)) eqn:Hhead.
    + rewrite !replace_placeholder_hit by exact Hhead.
      rewrite !GetSubstitution_plain by exact Hv. f_equal.
      apply IH. pose proof (drop_length_le (String.length param) s). lia.
    + rewrite !replace_placeholder_miss by exact Hhead. f_equal.
      apply IH. lia.
Qed.

Lemma pass_hit (param v rest : string) :
  Spec.plain v = true ->
  pass param v (String dollar param ++ rest) = v ++ pass param v rest.
Proof.
  intros Hv. unfold pass. cbn [String.append].
  rewrite replace_placeholder_hit
    by (change (String dollar (param ++ rest)) with (String dollar param ++ rest);
        apply startsWith_self).
  rewrite GetSubstitution_plain by exact Hv. rewrite drop_app. f_equal.
  apply (replace_placeholder_before param v (String.length rest) Hv). lia.
Qed.

Lemma pass_miss (param v rest : string) (c : ascii) :
  Spec.plain v = true ->
  startsWith (String c rest) (String dollar param) = false ->
  pass param v (String c rest) = String c (pass param v rest).
Proof.
  intros Hv H. unfold pass. rewrite replace_placeholder_miss by exact H. f_equal.
  apply (replace_placeholder_before param v (String.length rest) Hv). lia.
Qed.

(** An occurrence cuts the pass in two: the texts on either side are
    processed on their own and the value is put between them as it is. *)
Lemma pass_occurrence (param v : string) (n : nat) :
  word_chars param = true -> Spec.plain v = true ->
  forall a b,
    (String.length a <= n)%nat ->
    pass param v (a ++ String dollar param ++ b)
    = pass param v a ++ v ++ pass param v b.
Proof.
  intros Hp Hv. induction n as [|n IH]; intros a b Hn.
  - destruct a; [|simpl in Hn; lia]. cbn [String.append].
    change (String dollar (param ++ b)) with (String dollar param ++ b).
    rewrite pass_hit by exact Hv. reflexivity.
  - destruct a as [|c a].
    + cbn [String.append].
      change (String dollar (param ++ b)) with (String dollar param ++ b).
      rewrite pass_hit by exact Hv. reflexivity.
    + simpl in Hn.
      change (String c a ++ String dollar param ++ b)
        with (String c (a ++ String dollar (param ++ b))).
      destruct (startsWith (String c (a ++ String dollar (param ++ b)))
                           (String dollar param)) eqn:Hhead.
      * (* the text starts with the placeholder, which lies within [a] *)
        cbn [startsWith] in Hhead. apply andb_prop in Hhead as [Hc Hrest].
        apply Ascii.eqb_eq in Hc. subst c.
        apply (word_before_dollar param Hp) in Hrest.
        apply startsWith_split in Hrest.
        set (a2 := drop (String.length param) a) in *.
        rewrite Hrest, append_assoc.
        change (String dollar (param ++ a2 ++ String dollar (param ++ b)))
          with (String dollar param ++ (a2 ++ String dollar param ++ b)).
        change (String dollar (param ++ a2)) with (String dollar param ++ a2).
        rewrite !pass_hit by exact Hv.
        rewrite IH, append_assoc; [reflexivity|].
        subst a2. pose proof (drop_length_le (String.length param) a). lia.
      * rewrite pass_miss by assumption.
        assert (Hhead' : startsWith (String c a) (String dollar param) = false).
        { destruct (startsWith (String c a) (String dollar param)) eqn:E; [|reflexivity].
          apply (startsWith_app _ _ (String dollar (param ++ b))) in E.
          cbn [String.append] in E. congruence. }
        rewrite (pass_miss param v a c Hv Hhead').
        cbn [String.append]. f_equal. apply IH. lia.
Qed.



Lemma arg_at_middle (pre vs : list string) (v : string) :
  arg_at (pre ++ v :: vs) (length pre) = v.
Proof. unfold arg_at. apply nth_middle. Qed.


(** The pass of the last parameter runs over the outcome of the passes
    before it. *)
Lemma substitute_last (ps : list string) (p : string) :
  forall (index : nat) (args : list string) (result : string),
    substitute (ps ++ [p]) index args result
    = replace_placeholder p (arg_at args (index + length ps)) ""
        (substitute ps index args result).
Proof.
  induction ps as [|p0 ps IH]; intros index args result.
  - cbn [app substitute length]. rewrite Nat.add_0_r. reflexivity.
  - cbn [app substitute length]. rewrite IH. do 2 f_equal. lia.
Qed.

(** The passes read the arguments at their own indexes only. *)
Lemma substitute_more_args (ps : list string) (extra : list string) :
  forall (index : nat) (args : list string) (result : string),
    (index + length ps <= length args)%nat ->
    substitute ps index (args ++ extra) result = substitute ps index args result.
Proof.
  induction ps as [|p0 ps IH]; intros index args result Hlen; [reflexivity|].
  cbn [substitute length] in *. rewrite IH by lia. unfold arg_at.
  rewrite app_nth1 by lia. reflexivity.
Qed.

Lemma word_chars_plain (r : string) : word_chars r = true -> Spec.plain r = true.
Proof.
  induction r as [|e r IH]; [reflexivity|]. cbn [word_chars Spec.plain].
  intros H. apply andb_prop in H as [He Hr].
  rewrite (is_word_char_dollar e He). auto.
Qed.

(** A text that is just the placeholder becomes the value. *)
Lemma pass_placeholder (param v : string) :
  Spec.plain v = true -> pass param v (String dollar param) = v.
Proof.
  intros Hv. pose proof (pass_hit param v "" Hv) as H.
  rewrite append_empty_r in H. rewrite H.
  unfold pass. simp replace_placeholder. apply append_empty_r.
Qed.

(** A placeholder is itself a plain value. *)
Lemma plain_placeholder (q : string) :
  word_chars q = true -> Spec.plain (String dollar q) = true.
Proof.
  intros Hq. pose proof (word_chars_plain q Hq) as Hplain.
  destruct q as [|d q]; [reflexivity|].
  cbn [word_chars] in Hq. apply andb_prop in Hq as [Hd _].
  change (Spec.plain (String dollar (String d q)))
    with (negb (Ascii.eqb d "$" || Ascii.eqb d "&" || Ascii.eqb d "`" || Ascii.eqb d "'")
          && Spec.plain (String d q))%bool.
  rewrite Hplain, andb_true_r.
  destruct (Ascii.eqb_spec d "$") as [->|_]; [discriminate Hd|].
  destruct (Ascii.eqb_spec d "&") as [->|_]; [discriminate Hd|].
  destruct (Ascii.eqb_spec d "`") as [->|_]; [discriminate Hd|].
  destruct (Ascii.eqb_spec d "'") as [->|_]; [discriminate Hd|].
  reflexivity.
Qed.

Lemma substitute_passes (params : list string) :
  forall (args pre : list string) (body : string),
    length args = length params ->
    substitute params (length pre) (pre ++ args) body = passes params args body.
Proof.
  induction params as [|p params IH]; intros args pre body Hlen.
  - destruct args; [reflexivity | discriminate Hlen].
  - destruct args as [|v vs]; [discriminate Hlen|]. injection Hlen as Hlen.
    cbn [substitute]. rewrite arg_at_middle.
    replace (S (length pre)) with (length (pre ++ [v])).
    2: { rewrite length_app. simpl. lia. }
    replace (pre ++ v :: vs)%list with ((pre ++ [v]) ++ vs)%list.
    2: { rewrite <- app_assoc. reflexivity. }
    rewrite IH by exact Hlen. reflexivity.
Qed.

Lemma passes_last (ps : list string) :
  forall (vs : list string) (p v body : string),
    length vs = length ps ->
    passes (ps ++ [p]) (vs ++ [v]) body = pass p v (passes ps vs body).
Proof.
  unfold passes. induction ps as [|q ps IH]; intros vs p v body Hlen.
  - destruct vs; [reflexivity | discriminate Hlen].
  - destruct vs as [|w vs]; [discriminate Hlen|]. injection Hlen as Hlen.
    cbn [app combine fold_left]. apply IH. exact Hlen.
Qed.

End Expander.

(** ** Parameter detection *)

Section Detection.

Import QuickCommandManager.

Lemma detect_unfold (rest : string) (parameters : list string) (seen : gset string) :
  detect rest parameters seen =
  match exec rest with
  | None => parameters
  | Some (param, after) =>
    if decide (param ∈ seen)
    then detect after parameters seen
    else detect after (parameters ++ [param]) (seen ∪ {[param]})
  end.
Proof.
  funelim (detect rest parameters seen);
    match goal with H : exec _ = _ |- _ => rewrite H end; reflexivity.
Qed.

Lemma ident_char_not_dollar (c : ascii) :
  is_ident_char c = true -> Ascii.eqb c dollar = false.
Proof. apply is_word_char_dollar. Qed.

Lemma ident_start_char (c : ascii) : is_ident_start c = true -> is_ident_char c = true.
Proof.
  unfold is_ident_start, is_ident_char, is_word_char. cbv zeta.
  destruct (_ && _)%bool; [reflexivity|].
  destruct (_ && _)%bool; [reflexivity|].
  cbn [orb]. intros ->. apply orb_true_r.
Qed.

(** What the greedy run returns: the text is cut in two, the run is made of
    identifier characters and cannot be made longer. *)
Lemma ident_run_spec (s : string) :
  s = fst (ident_run s) ++ snd (ident_run s)
  /\ word_chars (fst (ident_run s)) = true
  /\ Spec.continues (snd (ident_run s)) = false.
Proof.
  induction s as [|c s (IH1 & IH2 & IH3)]; [repeat split|].
  cbn [ident_run]. destruct (is_ident_char c) eqn:Hc.
  - destruct (ident_run s) as [run after]. cbn [fst snd] in *.
    repeat split; [cbn [String.append]; congruence | | exact IH3].
    cbn [word_chars]. unfold is_ident_char in Hc. rewrite Hc. exact IH2.
  - cbn [fst snd]. repeat split. cbn [Spec.continues]. exact Hc.
Qed.

Lemma ident_run_app (r post : string) :
  word_chars r = true -> Spec.continues post = false ->
  ident_run (r ++ post) = (r, post).
Proof.
  intros Hr Hpost. induction r as [|c r IH].
  - cbn [String.append]. destruct post as [|c post]; [reflexivity|].
    cbn [Spec.continues] in Hpost. cbn [ident_run]. rewrite Hpost. reflexivity.
  - cbn [word_chars] in Hr. apply andb_prop in Hr as [Hc Hr].
    cbn [String.append ident_run]. unfold is_ident_char. rewrite Hc, (IH Hr).
    reflexivity.
Qed.

(** No placeholder starts inside a run of identifier characters. *)
Lemma occurrences_after_run (s : string) :
  Spec.occurrences s = Spec.occurrences (snd (ident_run s)).
Proof.
  induction s as [|c s IH]; [reflexivity|].
  cbn [ident_run]. destruct (is_ident_char c) eqn:Hc; [|reflexivity].
  destruct (ident_run s) as [run after] eqn:Hrun. cbn [snd] in *.
  rewrite <- IH. cbn [Spec.occurrences Spec.placeholder_here].
  rewrite (ident_char_not_dollar c Hc). destruct s; reflexivity.
Qed.

(** [exec] finds the next placeholder and none is skipped. *)
Lemma exec_occurrences (rest : string) :
  match exec rest with
  | None => Spec.occurrences rest = []
  | Some (param, after) =>
    Spec.occurrences rest = param :: Spec.occurrences after
  end.
Proof.
  induction rest as [|c rest IH]; [reflexivity|].
  cbn [exec Spec.occurrences Spec.placeholder_here].
  destruct (Ascii.eqb c dollar) eqn:Hc.
  - destruct rest as [|d rest'']; [reflexivity|].
    cbn [andb]. destruct (is_ident_start d) eqn:Hd.
    + pose proof (occurrences_after_run (String d rest'')) as Hskip.
      cbn [ident_run] in Hskip. rewrite (ident_start_char d Hd) in Hskip.
      destruct (ident_run rest'') as [run after]. cbn [fst snd] in *.
      rewrite Hskip. reflexivity.
    + exact IH.
  - cbn [andb]. destruct rest as [|d rest'']; [reflexivity | exact IH].
Qed.

Lemma filter_filter_andb {A : Type} (f g : A -> bool) (l : list A) :
  List.filter f (List.filter g l) = List.filter (fun x => (g x && f x)%bool) l.
Proof.
  induction l as [|x l IH]; [reflexivity|].
  cbn [List.filter]. destruct (g x); cbn [andb List.filter]; [|exact IH].
  destruct (f x); congruence.
Qed.

(** The loop appends, in order, the first occurrences that were not seen
    before. *)
Lemma detect_first_occurrences (n : nat) :
  forall (rest : string) (parameters : list string) (seen : gset string),
    (String.length rest <= n)%nat ->
    detect rest parameters seen
    = (parameters
       ++ List.filter (fresh seen) (Spec.first_occurrences (Spec.occurrences rest)))%list.
Proof.
  induction n as [|n IH]; intros rest parameters seen Hn.
  - destruct rest; [|simpl in Hn; lia].
    rewrite detect_unfold. simpl. symmetry. apply app_nil_r.
  - rewrite detect_unfold. pose proof (exec_occurrences rest) as Hocc.
    destruct (exec rest) as [[param after]|] eqn:Hexec.
    2: { rewrite Hocc. simpl. symmetry. apply app_nil_r. }
    pose proof (exec_shorter rest param after Hexec) as Hlt.
    rewrite Hocc. cbn [Spec.first_occurrences List.filter].
    rewrite filter_filter_andb. unfold fresh at 1.
    destruct (decide (param ∈ seen)) as [Hin|Hout].
    + rewrite bool_decide_true by exact Hin. cbn [negb].
      rewrite IH by lia. f_equal. apply filter_ext_in. intros y _.
      unfold fresh. destruct (String.eqb_spec y param) as [->|]; cbn [negb andb].
      * rewrite bool_decide_true by exact Hin. reflexivity.
      * reflexivity.
    + rewrite bool_decide_false by exact Hout. cbn [negb].
      rewrite IH by lia. rewrite <- app_assoc. cbn [app]. do 2 f_equal.
      apply filter_ext_in. intros y _. unfold fresh.
      destruct (String.eqb_spec y param) as [->|Hne]; cbn [negb andb].
      * apply negb_false_iff, bool_decide_eq_true.
        apply elem_of_union_r, elem_of_singleton. reflexivity.
      * f_equal. apply bool_decide_ext.
        rewrite elem_of_union, elem_of_singleton. tauto.
Qed.

Lemma parseParameters_first_occurrences (template : string) :
  parseParametersFromTemplate template
  = Spec.first_occurrences (Spec.occurrences template).
Proof.
  unfold parseParametersFromTemplate.
  rewrite (detect_first_occurrences (String.length template)) by lia.
  cbn [app]. rewrite <- (filter_ext (fun _ => true)).
  - induction (Spec.first_occurrences _) as [|x l IHl]; [reflexivity|].
    cbn [List.filter]. congruence.
  - intros y. unfold fresh. rewrite bool_decide_false by set_solver. reflexivity.
Qed.

Lemma first_occurrences_In (l : list string) (y : string) :
  In y (Spec.first_occurrences l) <-> In y l.
Proof.
  induction l as [|x l IH]; [reflexivity|].
  cbn [Spec.first_occurrences In]. rewrite filter_In, IH.
  destruct (String.eqb_spec y x) as [->|Hne]; cbn [negb]; intuition congruence.
Qed.

Lemma first_occurrences_NoDup (l : list string) : List.NoDup (Spec.first_occurrences l).
Proof.
  induction l as [|x l IH]; cbn [Spec.first_occurrences]; constructor.
  - rewrite filter_In. intros [_ H]. rewrite String.eqb_refl in H. discriminate H.
  - apply List.NoDup_filter, IH.
Qed.

(** The placeholders of a text, said without reference to a scan. *)
Lemma occurrences_In (body x : string) :
  In x (Spec.occurrences body) <->
  exists pre post,
    body = pre ++ String dollar x ++ post
    /\ Spec.is_identifier x = true /\ Spec.continues post = false.
Proof.
  split.
  - induction body as [|c body IH]; [intros []|].
    cbn [Spec.occurrences].
    assert (Hlater : In x (Spec.occurrences body) ->
      exists pre post, String c body = pre ++ String dollar x ++ post
        /\ Spec.is_identifier x = true /\ Spec.continues post = false).
    { intros H. destruct (IH H) as (pre & post & -> & Hx & Hpost).
      exists (String c pre), post. auto. }
    destruct (Spec.placeholder_here (String c body)) as [x0|] eqn:Hhere; [|exact Hlater].
    intros [<-|H]; [|exact (Hlater H)].
    cbn [Spec.placeholder_here] in Hhere. destruct body as [|d r]; [discriminate|].
    destruct (Ascii.eqb c dollar) eqn:Hc; [|discriminate].
    destruct (is_ident_start d) eqn:Hd; [|discriminate].
    injection Hhere as <-. apply Ascii.eqb_eq in Hc. subst c.
    destruct (ident_run_spec r) as (Hr & Hrun & Hpost).
    exists "", (snd (ident_run r)). repeat split; [ | | exact Hpost].
    + cbn [String.append]. congruence.
    + cbn [Spec.is_identifier]. rewrite Hd, Hrun. reflexivity.
  - intros (pre & post & -> & Hx & Hpost).
    induction pre as [|c pre IH].
    + destruct x as [|d r]; [discriminate Hx|].
      cbn [Spec.is_identifier] in Hx. apply andb_prop in Hx as [Hd Hr].
      cbn [String.append Spec.occurrences Spec.placeholder_here].
      rewrite Ascii.eqb_refl, Hd, (ident_run_app r post Hr Hpost). left. reflexivity.
    + cbn [String.append Spec.occurrences].
      destruct (Spec.placeholder_here _); [right|]; exact IH.
Qed.

End Detection.

(** ** The registries *)

Section Registries.

Lemma address_literal_format (a : string) :
  Spec.is_address_literal a = true -> CM.bad_format a = false.
Proof.
  unfold Spec.is_address_literal, CM.bad_format. intros H.
  apply andb_prop in H as [H _]. apply andb_prop in H as [Hpre Hlen].
  apply Nat.eqb_eq in Hlen. rewrite Hpre.
  apply startsWith_split in Hpre. change (String.length "0x") with 2%nat in Hpre.
  set (h := drop 2 a) in *. rewrite Hpre, append_length, Hlen. reflexivity.
Qed.

Lemma bad_format_cases (a : string) :
  startsWith a "0x" = false \/ String.length a <> 42%nat -> CM.bad_format a = true.
Proof.
  unfold CM.bad_format. intros [->| Hlen]; [reflexivity|].
  apply Nat.eqb_neq in Hlen. rewrite Hlen. apply orb_true_r.
Qed.

(** After the assignment and the save, the alias reads as the new entry and
    every other alias as before. *)
Lemma assign_and_save_lookup (alias : string) (info : CM.ContractInfo)
    (now : string) (st : CM.store) (k : string) :
  CM.getContract (CM.assign_and_save alias info now st) k
  = if decide (alias = k) then Some info else CM.getContract st k.
Proof.
  unfold CM.getContract, CM.assign_and_save, CM.saveContracts, CM.getContracts.
  destruct (CM.file st); cbn; apply lookup_insert.
Qed.

Lemma addQuickCommand_lookup (name : string) (parameters : list string)
    (template : string) (description : option string) (now : string)
    (st : QM.store) (k : string) :
  QM.getQuickCommand (QM.addQuickCommand name parameters template description now st) k
  = if decide (name = k)
    then Some (QM.mkQuickCommand name parameters template description now now)
    else QM.getQuickCommand st k.
Proof.
  unfold QM.getQuickCommand, QM.addQuickCommand, QM.saveQuickCommands,
    QM.getQuickCommands.
  destruct (QM.file st); cbn; apply lookup_insert.
Qed.

End Registries.

(** ** The tokenizer *)

Section Tokenizer.

Import WalletManager.

Lemma char_string_eqb (c q : ascii) :
  (char_string c =? char_string q) = Ascii.eqb c q.
Proof.
  unfold char_string. destruct (Ascii.eqb_spec c q) as [->|Hne].
  - apply String.eqb_refl.
  - apply String.eqb_neq. congruence.
Qed.

Lemma scan_app (s1 s2 : string) (st : scanner) :
  scan (s1 ++ s2) st = scan s2 (scan s1 st).
Proof. revert st; induction s1 as [|c s1 IH]; intros st; simpl; auto. Qed.

(** The loop and the flush compute the non-empty pieces. *)
Lemma scan_pieces (s : string) :
  forall (a : list string) (cur : string) (open : option ascii),
    finish (scan s (scanner_of a cur open)) =
    (a ++ (let (g, gs) := Spec.pieces (Spec.classify Spec.is_space open s) in
           List.filter truthy ((cur ++ g)%string :: gs)))%list.
Proof.
  induction s as [|c s IH]; intros a cur open.
  - simpl. unfold finish; simpl. rewrite append_empty_r.
    destruct (truthy cur); simpl; [reflexivity | symmetry; apply app_nil_r].
  - cbn [scan Spec.classify]. destruct open as [q|].
    + unfold scan_char; cbn [inQuotes quoteChar scanner_of args current].
      replace (bool_decide (is_Some (Some q))) with true by reflexivity.
      rewrite andb_false_r, andb_true_r, char_string_eqb.
      destruct (Ascii.eqb c q).
      * change (Scanner a cur false "") with (scanner_of a cur None).
        rewrite IH. reflexivity.
      * cbn [negb]. rewrite andb_false_r.
        change (Scanner a (cur ++ char_string c) true (char_string q))
          with (scanner_of a (cur ++ char_string c) (Some q)).
        rewrite IH. cbn [Spec.pieces].
        destruct (Spec.pieces _) as [g gs].
        unfold char_string. rewrite append_assoc. reflexivity.
    + unfold scan_char; cbn [inQuotes quoteChar scanner_of args current].
      replace (bool_decide (is_Some (@None ascii))) with false by reflexivity.
      cbn [negb]. rewrite !andb_true_r, andb_false_r.
      destruct (is_quote c).
      * change (Scanner a cur true (char_string c)) with (scanner_of a cur (Some c)).
        rewrite IH. reflexivity.
      * unfold Spec.is_space at 1. destruct (Ascii.eqb c space).
        -- cbn [Spec.pieces]. destruct (truthy cur) eqn:Hcur.
           ++ change (Scanner (a ++ [cur]) "" false "")
                with (scanner_of (a ++ [cur]) "" None).
              rewrite IH. destruct (Spec.pieces _) as [g gs].
              rewrite append_empty_r. cbn [List.filter]. rewrite Hcur.
              rewrite <- app_assoc. reflexivity.
           ++ change (Scanner a cur false "") with (scanner_of a cur None).
              rewrite IH. destruct (Spec.pieces _) as [g gs].
              apply truthy_false in Hcur. subst cur. reflexivity.
        -- change (Scanner a (cur ++ char_string c) false "")
             with (scanner_of a (cur ++ char_string c) None).
           rewrite IH. cbn [Spec.pieces].
           destruct (Spec.pieces _) as [g gs].
           unfold char_string. rewrite append_assoc. reflexivity.
Qed.

Lemma parseCommandLine_tokenize (s : string) :
  parseCommandLine s = Spec.tokenize Spec.is_space s.
Proof.
  unfold parseCommandLine, Spec.tokenize.
  change (Scanner [] "" false "") with (scanner_of [] "" None).
  rewrite scan_pieces. reflexivity.
Qed.

(** The scanner keeps [quoteChar] empty outside a quoted span and a single
    character inside one. *)
Lemma scan_char_shape (a : list string) (cur : string) (open : option ascii)
    (c : ascii) :
  exists a' cur' open', scan_char (scanner_of a cur open) c = scanner_of a' cur' open'.
Proof.
  unfold scan_char; cbn [inQuotes quoteChar scanner_of args current].
  destruct open as [q|].
  - replace (bool_decide (is_Some (Some q))) with true by reflexivity.
    rewrite andb_false_r, andb_true_r, char_string_eqb. cbn [negb].
    rewrite andb_false_r. destruct (Ascii.eqb c q).
    + exists a, cur, None. reflexivity.
    + exists a, (cur ++ char_string c), (Some q). reflexivity.
  - replace (bool_decide (is_Some (@None ascii))) with false by reflexivity.
    cbn [negb]. rewrite !andb_true_r, andb_false_r.
    destruct (is_quote c); [exists a, cur, (Some c); reflexivity|].
    destruct (Ascii.eqb c space).
    + destruct (truthy cur).
      * exists (a ++ [cur])%list, "", None. reflexivity.
      * exists a, cur, None. reflexivity.
    + exists a, (cur ++ char_string c), None. reflexivity.
Qed.

Lemma scan_shape (s : string) :
  forall a cur open,
    exists a' cur' open', scan s (scanner_of a cur open) = scanner_of a' cur' open'.
Proof.
  induction s as [|c s IH]; intros a cur open; simpl.
  - exists a, cur, open. reflexivity.
  - destruct (scan_char_shape a cur open c) as (a' & cur' & open' & ->).
    apply IH.
Qed.

(** An unquoted space ends the token before it: the text to its right is
    tokenized on its own. *)
Lemma parseCommandLine_boundary (s1 s2 : string) :
  Spec.balanced s1 = true ->
  parseCommandLine (s1 ++ String space s2)
  = (parseCommandLine s1 ++ parseCommandLine s2)%list.
Proof.
  unfold Spec.balanced, parseCommandLine. intros Hbal.
  rewrite scan_app.
  change (Scanner [] "" false "") with (scanner_of [] "" None) in *.
  destruct (scan_shape s1 [] "" None) as (a1 & cur1 & open1 & Hs1).
  rewrite Hs1 in *. destruct open1 as [q|]; [discriminate Hbal|].
  rewrite !scan_pieces.
  cbn [Spec.classify Spec.pieces is_quote].
  replace (is_quote space) with false by reflexivity.
  replace (Spec.is_space space) with true by reflexivity.
  cbn [Spec.pieces]. destruct (Spec.pieces _) as [g gs].
  unfold finish, scanner_of; cbn [current args].
  rewrite append_empty_r. cbn [List.filter app].
  destruct (truthy cur1); cbn [List.filter String.append].
  - rewrite <- app_assoc. reflexivity.
  - reflexivity.
Qed.

Lemma scan_plain_word (w : string) :
  plain_word w = true ->
  forall a cur, scan w (scanner_of a cur None) = scanner_of a (cur ++ w) None.
Proof.
  induction w as [|c w IH]; intros Hw a cur; simpl.
  - rewrite append_empty_r. reflexivity.
  - simpl in Hw. apply andb_prop in Hw as [Hc Hw]. apply andb_prop in Hc as [Hq Hsp].
    apply negb_true_iff in Hq, Hsp.
    unfold scan_char; cbn [inQuotes quoteChar scanner_of args current].
    replace (bool_decide (is_Some (@None ascii))) with false by reflexivity.
    rewrite Hq, Hsp. cbn [negb andb]. rewrite andb_false_r.
    change (Scanner a (cur ++ char_string c) false "")
      with (scanner_of a (cur ++ char_string c) None).
    rewrite (IH Hw). unfold char_string. rewrite append_assoc. reflexivity.
Qed.

Lemma scan_quoted (body : string) (q : ascii) :
  Spec.mentions q body = false ->
  forall a cur, scan body (scanner_of a cur (Some q)) = scanner_of a (cur ++ body) (Some q).
Proof.
  induction body as [|c body IH]; intros Hb a cur; simpl.
  - rewrite append_empty_r. reflexivity.
  - simpl in Hb. apply orb_false_iff in Hb as [Hc Hb].
    unfold scan_char; cbn [inQuotes quoteChar scanner_of args current].
    replace (bool_decide (is_Some (Some q))) with true by reflexivity.
    rewrite char_string_eqb, Hc. cbn [negb andb]. rewrite !andb_false_r.
    change (Scanner a (cur ++ char_string c) true (char_string q))
      with (scanner_of a (cur ++ char_string c) (Some q)).
    rewrite (IH Hb). unfold char_string. rewrite append_assoc. reflexivity.
Qed.

Lemma scan_open_quote (q : ascii) (a : list string) (cur : string) :
  is_quote q = true ->
  scan_char (scanner_of a cur None) q = scanner_of a cur (Some q).
Proof.
  intros Hq. unfold scan_char; cbn [inQuotes quoteChar scanner_of args current].
  replace (bool_decide (is_Some (@None ascii))) with false by reflexivity.
  rewrite Hq. reflexivity.
Qed.

Lemma scan_close_quote (q : ascii) (a : list string) (cur : string) :
  scan_char (scanner_of a cur (Some q)) q = scanner_of a cur None.
Proof.
  unfold scan_char; cbn [inQuotes quoteChar scanner_of args current].
  replace (bool_decide (is_Some (Some q))) with true by reflexivity.
  rewrite char_string_eqb, Ascii.eqb_refl. cbn [negb andb].
  rewrite andb_false_r. reflexivity.
Qed.

(** A quoted span joins the text around it: the quote characters vanish
    and what they enclose is kept as it is. *)
Lemma parseCommandLine_quoted_span (pre body post : string) (q : ascii) :
  is_quote q = true -> plain_word pre = true -> plain_word post = true ->
  Spec.mentions q body = false ->
  parseCommandLine (pre ++ String q (body ++ String q post))
  = List.filter truthy [pre ++ body ++ post].
Proof.
  intros Hq Hpre Hpost Hbody. unfold parseCommandLine.
  change (Scanner [] "" false "") with (scanner_of [] "" None).
  rewrite scan_app, (scan_plain_word pre Hpre). cbn [scan].
  rewrite (scan_open_quote q _ _ Hq), scan_app, (scan_quoted body q Hbody).
  cbn [scan]. rewrite scan_close_quote, (scan_plain_word post Hpost).
  cbn [String.append]. rewrite append_assoc.
  unfold finish, scanner_of; cbn [current args List.filter].
  destruct (truthy _); reflexivity.
Qed.

(** A quote that is never closed takes the rest of the input. *)
Lemma parseCommandLine_unclosed_quote (pre body : string) (q : ascii) :
  is_quote q = true -> plain_word pre = true -> Spec.mentions q body = false ->
  parseCommandLine (pre ++ String q body) = List.filter truthy [pre ++ body].
Proof.
  intros Hq Hpre Hbody. unfold parseCommandLine.
  change (Scanner [] "" false "") with (scanner_of [] "" None).
  rewrite scan_app, (scan_plain_word pre Hpre). cbn [scan].
  rewrite (scan_open_quote q _ _ Hq), (scan_quoted body q Hbody).
  cbn [String.append].
  unfold finish, scanner_of; cbn [current args List.filter].
  destruct (truthy _); reflexivity.
Qed.

Lemma parseCommandLine_nonempty (s : string) :
  Forall (fun t => (0 < String.length t)%nat) (parseCommandLine s).
Proof.
  rewrite parseCommandLine_tokenize. unfold Spec.tokenize.
  destruct (Spec.pieces _) as [g gs].
  apply List.Forall_forall. intros t Ht. apply filter_In in Ht as [_ Ht].
  apply truthy_length, Ht.
Qed.

Lemma parseCommandLine_spaces (n : nat) : parseCommandLine (Spec.spaces n) = [].
Proof.
  unfold parseCommandLine. induction n as [|n IH]; [reflexivity|].
  simpl. exact IH.
Qed.

End Tokenizer.

(** * The claims *)

Section Claims.

Import WalletManager.

(** ** Reconstruction *)

(** C4, at the input on which the code departs from it: three tokens and no
    leading verb. The tokens that remain are the signer alias, the contract
    reference and the method signature, and [parseQuickCommand] throws its
    format error, because its length guard counts a verb that is not
    there. *)
Theorem parseQuickCommand_verbless_three_tokens :
  Spec.data_tokens (parseCommandLine "my-wallet token-alias pause()")
  = ["my-wallet"; "token-alias"; "pause()"]
  /\ parseQuickCommand "my-wallet token-alias pause()" = Throw format_error.
Proof. split; reflexivity. Qed.







(** ** Tokenization *)

(** C8 as stated fails on a tab: it is whitespace outside any quoted span,
    a tokenizer that splits at unquoted whitespace yields two tokens, and
    [parseCommandLine] yields one. *)
Lemma tab_is_not_a_boundary :
  Spec.is_whitespace tab = true
  /\ Spec.tokenize Spec.is_whitespace ("a" ++ String tab "b") = ["a"; "b"]
  /\ parseCommandLine ("a" ++ String tab "b") = ["a" ++ String tab "b"].
Proof. repeat split; reflexivity. Qed.

(** C8 (amended). [parseCommandLine] splits exactly at the unquoted space
    characters: it returns the non-empty pieces between them, quote
    characters that open or close a span removed. So an unquoted space ends
    the token before it; a quoted span joins the text around it and keeps
    what it encloses, spaces included; an unclosed quote takes the rest of
    the input; and the empty input has no tokens. *)
Theorem parseCommandLine_splits_at_unquoted_spaces :
  (forall s, parseCommandLine s = Spec.tokenize Spec.is_space s)
  /\ (forall s1 s2, Spec.balanced s1 = true ->
        parseCommandLine (s1 ++ String space s2)
        = (parseCommandLine s1 ++ parseCommandLine s2)%list)
  /\ (forall pre body post q,
        is_quote q = true -> plain_word pre = true -> plain_word post = true ->
        Spec.mentions q body = false ->
        parseCommandLine (pre ++ String q (body ++ String q post))
        = List.filter truthy [pre ++ body ++ post])
  /\ (forall pre body q,
        is_quote q = true -> plain_word pre = true ->
        Spec.mentions q body = false ->
        parseCommandLine (pre ++ String q body) = List.filter truthy [pre ++ body])
  /\ parseCommandLine "" = [].
Proof.
  split; [exact parseCommandLine_tokenize|].
  split; [exact parseCommandLine_boundary|].
  split; [exact parseCommandLine_quoted_span|].
  split; [exact parseCommandLine_unclosed_quote | reflexivity].
Qed.

Lemma parseCommandLine_splits_at_unquoted_spaces_witness :
  parseCommandLine ("ab" ++ String squote ("c d" ++ String squote "e"))
  = ["abc de"].
Proof.
  apply (proj1 (proj2 (proj2 parseCommandLine_splits_at_unquoted_spaces))
           "ab" "c d" "e" squote); reflexivity.
Defined.

(** C10. No token of [parseCommandLine] is the empty string. A pair of
    adjacent quote characters that stands alone between two spaces adds no
    token, as in [a "" b], which yields [a] and [b]; and an input made of
    spaces only has no tokens. *)
Theorem parseCommandLine_has_no_empty_token :
  (forall s, Forall (fun t => (0 < String.length t)%nat) (parseCommandLine s))
  /\ (forall s1 s2 q, is_quote q = true -> Spec.balanced s1 = true ->
        parseCommandLine (s1 ++ String space (String q (String q (String space s2))))
        = (parseCommandLine s1 ++ parseCommandLine s2)%list)
  /\ parseCommandLine ("a " ++ String dquote (String dquote " b")) = ["a"; "b"]
  /\ parseCommandLine "a '' b" = ["a"; "b"]
  /\ (forall n, parseCommandLine (Spec.spaces n) = []).
Proof.
  split; [exact parseCommandLine_nonempty|].
  split; [|split; [reflexivity | split; [reflexivity | exact parseCommandLine_spaces]]].
  intros s1 s2 q Hq Hbal.
  rewrite (parseCommandLine_boundary s1 _ Hbal). f_equal.
  change (String q (String q (String space s2)))
    with (String q (String q "") ++ String space s2).
  rewrite parseCommandLine_boundary.
  - rewrite (parseCommandLine_quoted_span "" "" "" q Hq eq_refl eq_refl eq_refl
               : parseCommandLine (String q (String q "")) = []).
    reflexivity.
  - unfold Spec.balanced. cbn [scan].
    change (Scanner [] "" false "") with (scanner_of [] "" None).
    rewrite (scan_open_quote q _ _ Hq), scan_close_quote. reflexivity.
Qed.

Lemma parseCommandLine_has_no_empty_token_witness :
  parseCommandLine ("x y" ++ String space (String squote (String squote (String space "z"))))
  = ["x"; "y"; "z"].
Proof.
  apply (proj1 (proj2 parseCommandLine_has_no_empty_token) "x y" "z" squote);
    reflexivity.
Defined.

(** ** Template expansion *)




(** C2 as stated fails here: the value of the first parameter holds the
    placeholder of the second, and that text does not survive; the pass of
    the second parameter replaces it. *)
Lemma expansion_rescans_inserted_value :
  QM.getQuickCommand echo_commands "echo"
  = Some (QM.mkQuickCommand "echo" ["a"; "b"] "$a" None t0 t0)
  /\ QM.executeQuickCommand echo_commands "echo" ["$b"; "X"] = Return "X"
  /\ Spec.occurs "$b" "X" = false.
Proof. repeat split; reflexivity. Qed.

(** C2 (amended). For a template whose parameter names are made of word
    characters, the expansion makes one pass per parameter, in the order of
    the parameter list, each over the whole outcome of the pass before.
    Within its own pass a value without replacement pattern is put in as
    it is and is not scanned: in the pass of the last parameter the texts
    on either side of an occurrence are processed on their own and the
    value stands between them, whatever placeholders it holds. A pass does
    scan the values that earlier passes put in: with the parameters [p]
    and [q] and the body [$p], the value [$q] for [p] is replaced by the
    value for [q]. *)
Theorem expansion_passes_in_parameter_order
    (st : QM.store) (name : string) (command : QM.QuickCommand) :
  QM.getQuickCommand st name = Some command ->
  Forall (fun p => QM.word_chars p = true) (QM.parameters command) ->
  (forall args,
      length args = length (QM.parameters command) ->
      QM.executeQuickCommand st name args
      = Return (passes (QM.parameters command) args (QM.template command)))
  /\ (forall ps p vs v a b,
        QM.parameters command = (ps ++ [p])%list ->
        length vs = length ps ->
        Spec.plain v = true ->
        passes ps vs (QM.template command) = a ++ String dollar p ++ b ->
        QM.executeQuickCommand st name (vs ++ [v])
        = Return (pass p v a ++ v ++ pass p v b))
  /\ (forall p q x,
        QM.parameters command = [p; q] ->
        QM.template command = String dollar p ->
        Spec.plain x = true ->
        QM.executeQuickCommand st name [String dollar q; x] = Return x).
Proof.
  intros Hget Hwords.
  assert (Hrun : forall args,
             length args = length (QM.parameters command) ->
             QM.executeQuickCommand st name args
             = Return (passes (QM.parameters command) args (QM.template command))).
  { intros args Hlen. unfold QM.executeQuickCommand. rewrite Hget.
    apply Nat.eqb_eq in Hlen as Hlenb. rewrite Hlenb. cbn [negb].
    rewrite (substitute_passes (QM.parameters command) args [] _ Hlen).
    reflexivity. }
  split; [exact Hrun|]. split.
  - intros ps p vs v a b Hps Hlen Hv Hmid.
    assert (Hp : QM.word_chars p = true).
    { rewrite Hps in Hwords. apply Forall_app in Hwords as [_ Hp].
      inversion Hp; assumption. }
    rewrite Hrun by (rewrite Hps, !length_app; simpl; lia).
    rewrite Hps, (passes_last ps vs p v _ Hlen), Hmid. f_equal.
    apply (pass_occurrence p v (String.length a) Hp Hv a b (le_n _)).
  - intros p q x Hps Hbody Hx.
    assert (Hq : QM.word_chars q = true).
    { rewrite Hps in Hwords. inversion Hwords as [|? ? _ Hrest]; subst.
      inversion Hrest; assumption. }
    rewrite Hrun by (rewrite Hps; reflexivity).
    rewrite Hps, Hbody. unfold passes. cbn [combine fold_left fst snd].
    rewrite (pass_placeholder p (String dollar q) (plain_placeholder q Hq)).
    rewrite (pass_placeholder q x Hx). reflexivity.
Qed.

Lemma expansion_passes_in_parameter_order_witness :
  QM.executeQuickCommand echo_commands "echo" ["$b"; "$a or $b"]
  = Return "$a or $b".
Proof.
  apply (proj2 (proj2 (expansion_passes_in_parameter_order echo_commands "echo"
                         (QM.mkQuickCommand "echo" ["a"; "b"] "$a" None t0 t0)
                         eq_refl ltac:(repeat constructor)))
           "a" "b" "$a or $b"); reflexivity.
Defined.

(** ** Parameter detection *)

(** C9. [parseParametersFromTemplate] returns the identifiers of the
    placeholders of the body: a sigil, then a letter or underscore, then
    the identifier characters that follow, up to the first character that
    is not one. Each identifier is listed once, at the place of its first
    occurrence; the body [call $w $addr "m($x)"] gives [w], [addr], [x], and
    so does the same body with [$w] repeated. *)
Theorem parseParameters_lists_first_occurrences :
  (forall body,
      QM.parseParametersFromTemplate body
      = Spec.first_occurrences (Spec.occurrences body))
  /\ (forall body, List.NoDup (QM.parseParametersFromTemplate body))
  /\ (forall body x,
        In x (QM.parseParametersFromTemplate body) <->
        exists pre post,
          body = pre ++ String dollar x ++ post
          /\ Spec.is_identifier x = true /\ Spec.continues post = false)
  /\ QM.parseParametersFromTemplate
       ("call $w $addr " ++ String dquote ("m($x)" ++ String dquote ""))
     = ["w"; "addr"; "x"]
  /\ QM.parseParametersFromTemplate detect_example = ["w"; "addr"; "x"].
Proof.
  split; [exact parseParameters_first_occurrences|].
  split.
  { intros body. rewrite parseParameters_first_occurrences.
    apply first_occurrences_NoDup. }
  split.
  { intros body x. rewrite parseParameters_first_occurrences, first_occurrences_In.
    apply occurrences_In. }
  split; rewrite parseParameters_first_occurrences; reflexivity.
Qed.

(** ** The registries *)

(** C3 as stated fails here: the alias [token] and the template [pay] are
    present, adding under the same key succeeds, and the entry under the
    key is the new one. *)
Lemma add_existing_key_overwrites :
  CM.getContract token_contracts "token"
  = Some (CM.mkContractInfo "token" address_a None None None None t0 t0)
  /\ fst (CM.addContract "token" address_b no_metadata t1 token_contracts)
     = Return tt
  /\ CM.getContract
       (snd (CM.addContract "token" address_b no_metadata t1 token_contracts))
       "token"
     = Some (CM.mkContractInfo "token" address_b None None None None t1 t1)
  /\ QM.getQuickCommand pay_commands "pay"
     = Some (QM.mkQuickCommand "pay" ["amount"] "send $amountMax $amount" None t0 t0)
  /\ QM.getQuickCommand
       (QM.addQuickCommand "pay" ["to"] "send $to" None t1 pay_commands) "pay"
     = Some (QM.mkQuickCommand "pay" ["to"] "send $to" None t1 t1).
Proof. repeat split; vm_compute; reflexivity. Qed.

(** C3 (amended). Neither manager looks for an existing key. Adding an
    alias under a key that is present succeeds whenever the address has the
    accepted format, adding a template under a key that is present always
    succeeds, and in both cases the entry under the key becomes the new one,
    stamped with the time of the call, while every other key keeps its
    entry. *)
Theorem add_existing_key_replaces_entry (k : string) :
  (forall (st : CM.store) (old : CM.ContractInfo) address options now,
      CM.getContract st k = Some old ->
      CM.bad_format address = false ->
      exists st',
        CM.addContract k address options now st = (Return tt, st')
        /\ CM.getContract st' k
           = Some (CM.mkContractInfo k address (CM.o_name options)
                     (CM.o_description options) (CM.o_network options)
                     (CM.o_abi options) now now)
        /\ forall k', k' <> k -> CM.getContract st' k' = CM.getContract st k')
  /\ (forall (st : QM.store) (old : QM.QuickCommand) parameters template
             description now,
        QM.getQuickCommand st k = Some old ->
        QM.getQuickCommand
          (QM.addQuickCommand k parameters template description now st) k
        = Some (QM.mkQuickCommand k parameters template description now now)
        /\ forall k', k' <> k ->
             QM.getQuickCommand
               (QM.addQuickCommand k parameters template description now st) k'
             = QM.getQuickCommand st k').
Proof.
  split.
  - intros st old address options now _ Hfmt. unfold CM.addContract. rewrite Hfmt.
    eexists. split; [reflexivity|]. split.
    + rewrite assign_and_save_lookup. apply decide_True. reflexivity.
    + intros k' Hne. rewrite assign_and_save_lookup. apply decide_False. congruence.
  - intros st old parameters template description now _. split.
    + rewrite addQuickCommand_lookup. apply decide_True. reflexivity.
    + intros k' Hne. rewrite addQuickCommand_lookup. apply decide_False. congruence.
Qed.

Lemma add_existing_key_replaces_entry_witness :
  exists st',
    CM.addContract "token" address_b no_metadata t1 token_contracts = (Return tt, st')
    /\ CM.getContract st' "token"
       = Some (CM.mkContractInfo "token" address_b None None None None t1 t1)
    /\ forall k', k' <> "token" ->
         CM.getContract st' k' = CM.getContract token_contracts k'.
Proof.
  apply (proj1 (add_existing_key_replaces_entry "token") token_contracts
           (CM.mkContractInfo "token" address_a None None None None t0 t0)
           address_b no_metadata t1); reflexivity.
Defined.

(** C7 as stated fails here: forty characters after the prefix, none of
    them hexadecimal, are accepted by [addContract] and by
    [updateContract]. *)
Lemma non_hexadecimal_address_is_accepted :
  Spec.is_address_literal address_z = false
  /\ fst (CM.addContract "token" address_z no_metadata t0 (CM.create t0))
     = Return tt
  /\ fst (CM.updateContract "token" (only_address address_z) t1 token_contracts)
     = Return true
  /\ CM.address
     <$> CM.getContract
           (snd (CM.updateContract "token" (only_address address_z) t1 token_contracts))
           "token"
     = Some address_z.
Proof. repeat split; vm_compute; reflexivity. Qed.

(** C7 (amended). The format that is checked is the prefix [0x] and a
    length of 42. [addContract] with an address that lacks the prefix or has
    another length throws the format error and leaves the store as it was,
    and so does [updateContract] of an existing alias when that address is
    not the empty string. Every address with the prefix and a length of
    42 passes the check of both, whatever its other forty characters are:
    [addContract] returns and [updateContract] of an existing alias
    returns [true]. The addresses made of the prefix and exactly 40
    hexadecimal characters are among them. *)
Theorem address_format_is_prefix_and_length
    (st : CM.store) (alias a now : string) :
  (forall options,
      startsWith a "0x" = false \/ String.length a <> 42%nat ->
      CM.addContract alias a options now st = (Throw CM.invalid_address, st))
  /\ (forall options,
        startsWith a "0x" = true -> String.length a = 42%nat ->
        fst (CM.addContract alias a options now st) = Return tt)
  /\ (Spec.is_address_literal a = true ->
      startsWith a "0x" = true /\ String.length a = 42%nat)
  /\ (forall contract updates,
        CM.getContract st alias = Some contract ->
        CM.u_address updates = Some a ->
        (a <> "" ->
         startsWith a "0x" = false \/ String.length a <> 42%nat ->
         CM.updateContract alias updates now st = (Throw CM.invalid_address, st))
        /\ (startsWith a "0x" = true -> String.length a = 42%nat ->
            fst (CM.updateContract alias updates now st) = Return true)).
Proof.
  assert (Hgood : startsWith a "0x" = true -> String.length a = 42%nat ->
                  CM.bad_format a = false).
  { intros Hp Hl. unfold CM.bad_format. rewrite Hp, Hl. reflexivity. }
  split; [|split; [|split]].
  - intros options Hbad. unfold CM.addContract.
    rewrite (bad_format_cases a Hbad). reflexivity.
  - intros options Hp Hl. unfold CM.addContract. rewrite (Hgood Hp Hl). reflexivity.
  - intros Hlit. pose proof (address_literal_format a Hlit) as Hfmt.
    unfold CM.bad_format in Hfmt. apply orb_false_iff in Hfmt as [Hp Hl].
    apply negb_false_iff in Hp, Hl. apply Nat.eqb_eq in Hl. split; assumption.
  - intros contract updates Hget Hupd.
    unfold CM.getContract in Hget. unfold CM.updateContract, CM.rejects_update.
    rewrite Hget, Hupd. split.
    + intros Hne Hbad. rewrite (bad_format_cases a Hbad).
      destruct a; [congruence | reflexivity].
    + intros Hp Hl. rewrite (Hgood Hp Hl), andb_false_r. reflexivity.
Qed.

Lemma address_format_is_prefix_and_length_witness :
  CM.addContract "token" "0x1234" no_metadata t1 token_contracts
  = (Throw CM.invalid_address, token_contracts)
  /\ fst (CM.updateContract "token" (only_address address_z) t1 token_contracts)
     = Return true.
Proof.
  split.
  - apply (proj1 (address_format_is_prefix_and_length token_contracts "token"
                    "0x1234" t1) no_metadata).
    right. cbn. lia.
  - apply (proj2 (proj2 (proj2 (address_format_is_prefix_and_length
                                  token_contracts "token" address_z t1)))
             token_info (only_address address_z)); reflexivity.
Defined.

End Claims.

(** * Further properties of the code *)

(** ** The alias registry *)

Section ContractRegistry.

Lemma saveContracts_lookup (p : CM.PartialFile) (now : string) (st : CM.store)
    (k : string) :
  CM.getContract (CM.saveContracts p now st) k
  = default (CM.contracts (CM.getContracts st)) (CM.p_contracts p) !! k.
Proof. reflexivity. Qed.

Lemma removeContract_lookup (alias now : string) (st : CM.store) (k : string) :
  CM.getContract (snd (CM.removeContract alias now st)) k
  = if decide (alias = k) then None else CM.getContract st k.
Proof.
  unfold CM.removeContract, CM.getContract.
  destruct (CM.contracts (CM.getContracts st) !! alias) eqn:Hk; cbn [snd].
  - unfold CM.saveContracts, CM.getContracts. destruct (CM.file st); cbn;
      apply lookup_delete.
  - destruct (decide (alias = k)) as [<-|]; [exact Hk | reflexivity].
Qed.

(** For an alias that is not the name of a member that every object
    inherits: [removeContract] of an alias that is absent returns [false]
    and leaves the store as it was; of an alias that is present it returns
    [true], the alias is absent afterwards and every other such alias keeps
    its entry. *)
Theorem removeContract_removes_only_the_alias
    (alias now : string) (st : CM.store) :
  own_name alias = true ->
  (CM.getContract st alias = None -> CM.removeContract alias now st = (false, st))
  /\ (forall c, CM.getContract st alias = Some c ->
        fst (CM.removeContract alias now st) = true
        /\ CM.getContract (snd (CM.removeContract alias now st)) alias = None
        /\ forall k, own_name k = true -> k <> alias ->
             CM.getContract (snd (CM.removeContract alias now st)) k
             = CM.getContract st k).
Proof.
  intros _. split.
  - unfold CM.getContract, CM.removeContract. intros ->. reflexivity.
  - intros c Hc. split; [|split].
    + unfold CM.getContract in Hc. unfold CM.removeContract. rewrite Hc. reflexivity.
    + rewrite removeContract_lookup. apply decide_True. reflexivity.
    + intros k _ Hne. rewrite removeContract_lookup. apply decide_False. congruence.
Qed.

Lemma removeContract_removes_only_the_alias_witness :
  fst (CM.removeContract "token" t1 token_contracts) = true
  /\ CM.getContract (snd (CM.removeContract "token" t1 token_contracts)) "token" = None
  /\ forall k, own_name k = true -> k <> "token" ->
       CM.getContract (snd (CM.removeContract "token" t1 token_contracts)) k
       = CM.getContract token_contracts k.
Proof.
  apply (proj2 (removeContract_removes_only_the_alias "token" t1 token_contracts
                  eq_refl)
           token_info).
  reflexivity.
Defined.

Lemma resolve_format (a : string) :
  (startsWith a "0x" && (String.length a =? 42)%nat)%bool = negb (CM.bad_format a).
Proof. unfold CM.bad_format. rewrite negb_orb, !negb_involutive. reflexivity. Qed.

Lemma resolveAddress_literal (st : CM.store) (a : string) :
  CM.bad_format a = false -> CM.resolveAddress st a = a.
Proof. intros H. unfold CM.resolveAddress. rewrite resolve_format, H. reflexivity. Qed.

Lemma resolveAddress_alias (st : CM.store) (a : string) (c : CM.ContractInfo) :
  CM.bad_format a = true -> CM.getContract st a = Some c ->
  CM.resolveAddress st a = CM.address c.
Proof.
  intros H Hc. unfold CM.resolveAddress. rewrite resolve_format, H, Hc. reflexivity.
Qed.

Lemma resolveAddress_unknown (st : CM.store) (a : string) :
  CM.getContract st a = None -> CM.resolveAddress st a = a.
Proof.
  intros Hc. unfold CM.resolveAddress. rewrite Hc. destruct (_ && _)%bool; reflexivity.
Qed.

Lemma well_formed_create (now : string) : well_formed (CM.create now).
Proof. intros k c H. discriminate H. Qed.


Lemma well_formed_addContract (st : CM.store) (alias a : string)
    (options : CM.contract_options) (now : string) :
  well_formed st -> well_formed (snd (CM.addContract alias a options now st)).
Proof.
  intros Hwf k c. unfold CM.addContract.
  destruct (CM.bad_format a) eqn:Hfmt; cbn [snd]; [apply Hwf|].
  rewrite assign_and_save_lookup. destruct (decide (alias = k)); [|apply Hwf].
  intros [= <-]. exact Hfmt.
Qed.



Lemma token_contracts_well_formed : well_formed token_contracts.
Proof. apply well_formed_addContract, well_formed_create. Qed.



Lemma resolveAddress_idempotent_aux (st : CM.store) (x : string) :
  well_formed st ->
  CM.resolveAddress st (CM.resolveAddress st x) = CM.resolveAddress st x
  /\ (CM.bad_format x = false -> CM.resolveAddress st x = x)
  /\ (CM.bad_format (CM.resolveAddress st x) = true -> CM.resolveAddress st x = x).
Proof.
  intros Hwf. destruct (CM.bad_format x) eqn:Hx.
  - destruct (CM.getContract st x) as [c|] eqn:Hc.
    + rewrite (resolveAddress_alias st x c Hx Hc).
      pose proof (Hwf x c Hc) as Hfmt.
      rewrite (resolveAddress_literal st _ Hfmt). rewrite Hfmt.
      repeat split; discriminate.
    + rewrite (resolveAddress_unknown st x Hc), (resolveAddress_unknown st x Hc).
      repeat split; reflexivity.
  - rewrite !(resolveAddress_literal st x Hx). repeat split; reflexivity.
Qed.

(** For a text that is not the name of a member that every object
    inherits, and when every stored address has the checked format:
    resolving twice is resolving once, as [executeQuickCommand] and then
    [callContract] do; text in the address format is returned as it is
    whatever the store holds, and a name that is neither is returned
    unchanged. *)
Theorem resolveAddress_is_idempotent (st : CM.store) (x : string) :
  own_name x = true ->
  well_formed st ->
  CM.resolveAddress st (CM.resolveAddress st x) = CM.resolveAddress st x
  /\ (CM.bad_format x = false -> CM.resolveAddress st x = x)
  /\ (CM.bad_format (CM.resolveAddress st x) = true -> CM.resolveAddress st x = x).
Proof.
  intros _ Hwf. destruct (CM.bad_format x) eqn:Hx.
  - destruct (CM.getContract st x) as [c|] eqn:Hc.
    + rewrite (resolveAddress_alias st x c Hx Hc).
      pose proof (Hwf x c Hc) as Hfmt.
      rewrite (resolveAddress_literal st _ Hfmt). rewrite Hfmt.
      repeat split; discriminate.
    + rewrite (resolveAddress_unknown st x Hc), (resolveAddress_unknown st x Hc).
      repeat split; reflexivity.
  - rewrite !(resolveAddress_literal st x Hx). repeat split; reflexivity.
Qed.

Lemma resolveAddress_is_idempotent_witness :
  CM.resolveAddress token_contracts (CM.resolveAddress token_contracts "token")
  = CM.resolveAddress token_contracts "token"
  /\ (CM.bad_format "token" = false -> CM.resolveAddress token_contracts "token" = "token")
  /\ (CM.bad_format (CM.resolveAddress token_contracts "token") = true ->
      CM.resolveAddress token_contracts "token" = "token").
Proof.
  apply (resolveAddress_is_idempotent token_contracts "token" eq_refl).
  exact token_contracts_well_formed.
Defined.

(** For an alias that is not the name of a member that every object
    inherits: [updateContract] of an alias that is absent returns [false]
    and leaves the store as it was, whatever the updates hold. An update
    that goes through keeps the alias and the creation time of the entry
    and every member that the updates do not mention, stamps the entry with
    the time of the call, and touches no other such alias. *)
Theorem updateContract_changes_named_fields_only
    (alias now : string) (updates : CM.contract_updates) (st : CM.store) :
  own_name alias = true ->
  (CM.getContract st alias = None ->
   CM.updateContract alias updates now st = (Return false, st))
  /\ (forall old st',
        CM.getContract st alias = Some old ->
        CM.updateContract alias updates now st = (Return true, st') ->
        exists new,
          CM.getContract st' alias = Some new
          /\ CM.alias new = CM.alias old
          /\ CM.createdAt new = CM.createdAt old
          /\ CM.updatedAt new = now
          /\ CM.address new = default (CM.address old) (CM.u_address updates)
          /\ (CM.u_name updates = None -> CM.name new = CM.name old)
          /\ (CM.u_description updates = None ->
              CM.description new = CM.description old)
          /\ (CM.u_network updates = None -> CM.network new = CM.network old)
          /\ (CM.u_abi updates = None -> CM.abi new = CM.abi old)
          /\ forall k, own_name k = true -> k <> alias ->
                       CM.getContract st' k = CM.getContract st k).
Proof.
  intros _. split.
  - unfold CM.getContract, CM.updateContract. intros ->. reflexivity.
  - intros old st' Hold. unfold CM.getContract in Hold. unfold CM.updateContract.
    rewrite Hold. destruct (CM.rejects_update updates); [discriminate|].
    intros [= <-]. exists (CM.apply_updates old updates now).
    split; [rewrite assign_and_save_lookup; apply decide_True; reflexivity|].
    unfold CM.apply_updates; cbn.
    repeat split; try (intros ->; reflexivity).
    intros k _ Hne. rewrite assign_and_save_lookup. apply decide_False. congruence.
Qed.

Lemma updateContract_changes_named_fields_only_witness :
  CM.updateContract "vault" (only_address address_z) t1 token_contracts
  = (Return false, token_contracts)
  /\ exists new,
       CM.getContract
         (snd (CM.updateContract "token" (only_address address_z) t1 token_contracts))
         "token" = Some new
       /\ CM.alias new = "token"
       /\ CM.createdAt new = t0
       /\ CM.updatedAt new = t1
       /\ CM.address new = address_z
       /\ CM.name new = None.
Proof.
  split.
  - apply (proj1 (updateContract_changes_named_fields_only "vault" t1
                    (only_address address_z) token_contracts eq_refl)).
    reflexivity.
  - destruct (proj2 (updateContract_changes_named_fields_only "token" t1
                       (only_address address_z) token_contracts eq_refl)
                token_info
                (snd (CM.updateContract "token" (only_address address_z) t1
                        token_contracts))
                eq_refl eq_refl)
      as (new & Hnew & Halias & Hcreated & Hupdated & Haddress & Hname & _).
    exists new. repeat split; try assumption. exact (Hname eq_refl).
Defined.

(** The format of a new address is looked at only when the address is a
    non-empty string: [updateContract] of an existing alias with the empty
    string as address goes through and the stored address is empty
    afterwards. *)
Theorem updateContract_accepts_the_empty_address
    (alias now : string) (updates : CM.contract_updates) (st : CM.store)
    (old : CM.ContractInfo) :
  CM.getContract st alias = Some old ->
  CM.u_address updates = Some "" ->
  fst (CM.updateContract alias updates now st) = Return true
  /\ CM.address <$> CM.getContract (snd (CM.updateContract alias updates now st)) alias
     = Some "".
Proof.
  intros Hold Hupd. unfold CM.getContract in Hold.
  unfold CM.updateContract, CM.rejects_update. rewrite Hold, Hupd.
  change (truthy "") with false. cbn [andb fst snd].
  split; [reflexivity|].
  rewrite assign_and_save_lookup, decide_True by reflexivity.
  unfold CM.apply_updates. rewrite Hupd. reflexivity.
Qed.

Lemma updateContract_accepts_the_empty_address_witness :
  fst (CM.updateContract "token" (only_address "") t1 token_contracts) = Return true
  /\ CM.address
     <$> CM.getContract
           (snd (CM.updateContract "token" (only_address "") t1 token_contracts))
           "token"
     = Some "".
Proof.
  apply (updateContract_accepts_the_empty_address "token" t1 (only_address "")
           token_contracts token_info); reflexivity.
Defined.

Lemma pristine_save (p : CM.PartialFile) (now : string) (st : CM.store) :
  CM.contracts (CM.defaultContracts st) = ∅ -> pristine (CM.saveContracts p now st).
Proof. intros H. split; [exact H | eexists; reflexivity]. Qed.

Lemma pristine_assign (alias : string) (info : CM.ContractInfo) (now : string)
    (st : CM.store) :
  pristine st -> pristine (CM.assign_and_save alias info now st).
Proof.
  intros [Hdef [d Hd]]. unfold CM.assign_and_save. rewrite Hd.
  apply pristine_save, Hdef.
Qed.

Lemma pristine_construct (now : string) (found : option (option CM.ContractsFile)) :
  found <> Some None -> pristine (CM.construct now found).
Proof.
  intros Hfound. destruct found as [[d|]|]; [| congruence |];
    (split; [reflexivity | eexists; reflexivity]).
Qed.

(** The constructor leaves a store whose file can be read and whose
    default document is empty, unless the file exists and cannot be read.
    Such a store stays so under the operations of the manager on aliases
    that are not names of members that every object inherits, and
    [resetContracts] then removes every alias: afterwards each such name
    is absent and resolves to itself. *)
Theorem resetContracts_removes_every_alias :
  (forall now found, found <> Some None -> pristine (CM.construct now found))
  /\ (forall st alias a options now,
        own_name alias = true ->
        pristine st -> pristine (snd (CM.addContract alias a options now st)))
  /\ (forall st alias updates now,
        own_name alias = true ->
        pristine st -> pristine (snd (CM.updateContract alias updates now st)))
  /\ (forall st alias now,
        own_name alias = true ->
        pristine st -> pristine (snd (CM.removeContract alias now st)))
  /\ (forall st now, pristine st -> pristine (CM.resetContracts now st))
  /\ (forall st now k,
        own_name k = true ->
        pristine st ->
        CM.getContract (CM.resetContracts now st) k = None
        /\ CM.resolveAddress (CM.resetContracts now st) k = k).
Proof.
  split; [|split; [|split; [|split; [|split]]]].
  - exact pristine_construct.
  - intros st alias a options now _ Hp. unfold CM.addContract.
    destruct (CM.bad_format a); cbn [snd]; [exact Hp | apply pristine_assign, Hp].
  - intros st alias updates now _ Hp. unfold CM.updateContract.
    destruct (_ !! alias); cbn [snd]; [|exact Hp].
    destruct (CM.rejects_update updates); cbn [snd];
      [exact Hp | apply pristine_assign, Hp].
  - intros st alias now _ Hp. unfold CM.removeContract.
    destruct (_ !! alias); cbn [snd]; [|exact Hp].
    destruct Hp as [Hdef [d Hd]]. rewrite Hd. apply pristine_save, Hdef.
  - intros st now [Hdef _]. apply pristine_save, Hdef.
  - intros st now k _ [Hdef _].
    assert (Hnone : CM.getContract (CM.resetContracts now st) k = None).
    { unfold CM.resetContracts. rewrite saveContracts_lookup. cbn [CM.p_contracts default].
      rewrite Hdef. reflexivity. }
    split; [exact Hnone | apply resolveAddress_unknown, Hnone].
Qed.

Lemma resetContracts_removes_every_alias_witness :
  pristine (CM.construct t1 (Some (Some (CM.getContracts token_contracts))))
  /\ CM.getContract (CM.resetContracts t1 token_contracts) "token" = None
  /\ CM.resolveAddress (CM.resetContracts t1 token_contracts) "token" = "token".
Proof.
  split.
  - apply (proj1 resetContracts_removes_every_alias). discriminate.
  - apply (proj2 (proj2 (proj2 (proj2 (proj2 resetContracts_removes_every_alias))))).
    + reflexivity.
    + split; [reflexivity | eexists; reflexivity].
Defined.

(** What [exportContracts] writes, [importContracts] reads back: after the
    import the store holds the entries, the version and the creation time
    of the exported store, under the time of the import, and the default
    document of the importing manager is as before. *)
Theorem importContracts_reads_an_export
    (filePath now : string) (source target : CM.store) (fs : CM.files) :
  exists target',
    CM.importContracts filePath now target (CM.exportContracts filePath source fs)
    = (Return tt, target')
    /\ CM.getContracts target'
       = CM.mkContractsFile (CM.contracts (CM.getContracts source))
           (CM.version (CM.getContracts source))
           (CM.file_createdAt (CM.getContracts source)) now
    /\ CM.defaultContracts target' = CM.defaultContracts target
    /\ forall k, CM.getContract target' k = CM.getContract source k.
Proof.
  unfold CM.importContracts, CM.exportContracts, CM.files in *.
  rewrite lookup_insert_eq. cbn [CM.whole CM.p_contracts].
  eexists. split; [reflexivity|]. repeat split.
Qed.

(** An import that fails leaves the store as it was: the file is missing,
    its text cannot be read as a document, or the document has no
    [contracts] member; in the last two cases the error is thrown again
    under the prefix of the import. *)
Theorem importContracts_fails_without_writing
    (filePath now : string) (st : CM.store) (fs : CM.files) :
  (fs !! filePath = None ->
   CM.importContracts filePath now st fs
   = (Throw (Error ("Contracts file not found: " ++ filePath)), st))
  /\ (forall error, fs !! filePath = Some (Files.Unparsable error) ->
        CM.importContracts filePath now st fs
        = (Throw (Error ("Failed to import contracts: " ++ error)), st))
  /\ (forall d, fs !! filePath = Some (Files.Parsed d) -> CM.p_contracts d = None ->
        CM.importContracts filePath now st fs
        = (Throw (Error "Failed to import contracts: Error: Invalid contracts file: missing contracts object"),
           st))
  /\ (forall e st', CM.importContracts filePath now st fs = (Throw e, st') -> st' = st).
Proof.
  unfold CM.importContracts. repeat split.
  - intros ->. reflexivity.
  - intros error ->. reflexivity.
  - intros d -> ->. reflexivity.
  - intros e st'. destruct (fs !! filePath) as [[d|error]|]; try (intros [= _ <-]; reflexivity).
    destruct (CM.p_contracts d); [discriminate | intros [= _ <-]; reflexivity].
Qed.

Lemma importContracts_fails_without_writing_witness :
  CM.importContracts "backup.json" t1 token_contracts ∅
  = (Throw (Error "Contracts file not found: backup.json"), token_contracts).
Proof.
  apply (proj1 (importContracts_fails_without_writing "backup.json" t1
                  token_contracts ∅)).
  reflexivity.
Defined.

End ContractRegistry.

(** ** The template registry *)

Section CommandRegistry.

Lemma removeQuickCommand_lookup (name now : string) (st : QM.store) (k : string) :
  QM.getQuickCommand (snd (QM.removeQuickCommand name now st)) k
  = if decide (name = k) then None else QM.getQuickCommand st k.
Proof.
  unfold QM.removeQuickCommand, QM.getQuickCommand.
  destruct (QM.commands (QM.getQuickCommands st) !! name) eqn:Hk; cbn [snd].
  - unfold QM.saveQuickCommands, QM.getQuickCommands. destruct (QM.file st); cbn;
      apply lookup_delete.
  - destruct (decide (name = k)) as [<-|]; [exact Hk | reflexivity].
Qed.

(** For a name that is not the name of a member that every object
    inherits: [removeQuickCommand] of a name that is absent returns [false]
    and leaves the store as it was; of a name that is present it returns
    [true], the name is absent afterwards, so that executing it fails, and
    every other such name has the template it had. *)
Theorem removeQuickCommand_removes_only_the_name
    (name now : string) (st : QM.store) :
  own_name name = true ->
  (QM.getQuickCommand st name = None ->
   QM.removeQuickCommand name now st = (false, st))
  /\ (forall c, QM.getQuickCommand st name = Some c ->
        fst (QM.removeQuickCommand name now st) = true
        /\ QM.getQuickCommand (snd (QM.removeQuickCommand name now st)) name = None
        /\ (forall args,
              QM.executeQuickCommand (snd (QM.removeQuickCommand name now st)) name args
              = Throw (Error ("Quick command '" ++ name ++ "' not found")))
        /\ forall k, own_name k = true -> k <> name ->
             QM.getQuickCommand (snd (QM.removeQuickCommand name now st)) k
             = QM.getQuickCommand st k).
Proof.
  intros _. split.
  - unfold QM.getQuickCommand, QM.removeQuickCommand. intros ->. reflexivity.
  - intros c Hc.
    assert (Hgone : QM.getQuickCommand (snd (QM.removeQuickCommand name now st)) name
                    = None).
    { rewrite removeQuickCommand_lookup. apply decide_True. reflexivity. }
    split; [|split; [exact Hgone | split]].
    + unfold QM.getQuickCommand in Hc. unfold QM.removeQuickCommand. rewrite Hc.
      reflexivity.
    + intros args. unfold QM.executeQuickCommand. rewrite Hgone. reflexivity.
    + intros k _ Hne. rewrite removeQuickCommand_lookup. apply decide_False. congruence.
Qed.

Lemma removeQuickCommand_removes_only_the_name_witness :
  fst (QM.removeQuickCommand "pay" t1 pay_commands) = true
  /\ QM.getQuickCommand (snd (QM.removeQuickCommand "pay" t1 pay_commands)) "pay" = None
  /\ (forall args,
        QM.executeQuickCommand (snd (QM.removeQuickCommand "pay" t1 pay_commands))
          "pay" args
        = Throw (Error ("Quick command '" ++ "pay" ++ "' not found")))
  /\ forall k, own_name k = true -> k <> "pay" ->
       QM.getQuickCommand (snd (QM.removeQuickCommand "pay" t1 pay_commands)) k
       = QM.getQuickCommand pay_commands k.
Proof.
  apply (proj2 (removeQuickCommand_removes_only_the_name "pay" t1 pay_commands
                  eq_refl)
           pay_command).
  reflexivity.
Defined.

Lemma pristine_commands_save (p : QM.PartialFile) (now : string) (st : QM.store) :
  QM.commands (QM.defaultQuickCommands st) = ∅ ->
  pristine_commands (QM.saveQuickCommands p now st).
Proof. intros H. split; [exact H | eexists; reflexivity]. Qed.

(** The constructor leaves a store of templates whose file can be read
    and whose default document is empty, unless the file exists and cannot
    be read. Such a store stays so when templates are added and removed
    under names that are not names of members that every object inherits,
    and [resetQuickCommands] then removes every template: afterwards each
    such name is absent. *)
Theorem resetQuickCommands_removes_every_template :
  (forall now found, found <> Some None -> pristine_commands (QM.construct now found))
  /\ (forall st name parameters template description now,
        own_name name = true ->
        pristine_commands st ->
        pristine_commands
          (QM.addQuickCommand name parameters template description now st))
  /\ (forall st name now,
        own_name name = true ->
        pristine_commands st ->
        pristine_commands (snd (QM.removeQuickCommand name now st)))
  /\ (forall st now k,
        own_name k = true ->
        pristine_commands st ->
        QM.getQuickCommand (QM.resetQuickCommands now st) k = None).
Proof.
  split; [|split; [|split]].
  - intros now found Hfound. destruct found as [[d|]|]; [| congruence |];
      (split; [reflexivity | eexists; reflexivity]).
  - intros st name parameters template description now _ [Hdef [d Hd]].
    unfold QM.addQuickCommand. rewrite Hd. apply pristine_commands_save, Hdef.
  - intros st name now _ Hp. unfold QM.removeQuickCommand.
    destruct (_ !! name); cbn [snd]; [|exact Hp].
    destruct Hp as [Hdef [d Hd]]. rewrite Hd. apply pristine_commands_save, Hdef.
  - intros st now k _ [Hdef _]. unfold QM.resetQuickCommands, QM.getQuickCommand.
    cbn. rewrite Hdef. reflexivity.
Qed.

Lemma resetQuickCommands_removes_every_template_witness :
  pristine_commands (QM.construct t1 (Some (Some (QM.getQuickCommands pay_commands))))
  /\ QM.getQuickCommand (QM.resetQuickCommands t1 pay_commands) "pay" = None.
Proof.
  split.
  - apply (proj1 resetQuickCommands_removes_every_template). discriminate.
  - apply (proj2 (proj2 (proj2 resetQuickCommands_removes_every_template))).
    + reflexivity.
    + split; [reflexivity | eexists; reflexivity].
Defined.

(** What [exportQuickCommands] writes, [importQuickCommands] reads back:
    after the import every name has the template it has in the exported
    store, so that it expands to the same text, and an import that fails
    leaves the store as it was. *)
Theorem importQuickCommands_reads_an_export
    (filePath now : string) (source target : QM.store) (fs : QM.files) :
  (exists target',
      QM.importQuickCommands filePath now target
        (QM.exportQuickCommands filePath source fs)
      = (Return tt, target')
      /\ QM.defaultQuickCommands target' = QM.defaultQuickCommands target
      /\ (forall k, QM.getQuickCommand target' k = QM.getQuickCommand source k)
      /\ (forall name args,
            QM.executeQuickCommand target' name args
            = QM.executeQuickCommand source name args))
  /\ (forall e target',
        QM.importQuickCommands filePath now target fs = (Throw e, target') ->
        target' = target).
Proof.
  split.
  - unfold QM.importQuickCommands, QM.exportQuickCommands, QM.files in *.
    rewrite lookup_insert_eq. cbn [QM.whole QM.p_commands].
    eexists. split; [reflexivity|]. repeat split.
  - unfold QM.importQuickCommands. intros e target'.
    destruct (fs !! filePath) as [[d|error]|]; try (intros [= _ <-]; reflexivity).
    destruct (QM.p_commands d); [discriminate | intros [= _ <-]; reflexivity].
Qed.

Lemma importQuickCommands_reads_an_export_witness :
  exists target',
    QM.importQuickCommands "backup.json" t1 (QM.create t0)
      (QM.exportQuickCommands "backup.json" pay_commands ∅)
    = (Return tt, target')
    /\ QM.defaultQuickCommands target' = QM.defaultQuickCommands (QM.create t0)
    /\ (forall k, QM.getQuickCommand target' k = QM.getQuickCommand pay_commands k)
    /\ (forall name args,
          QM.executeQuickCommand target' name args
          = QM.executeQuickCommand pay_commands name args).
Proof.
  exact (proj1 (importQuickCommands_reads_an_export "backup.json" t1 pay_commands
                  (QM.create t0) ∅)).
Defined.

(** ** Expansion *)

Import QuickCommandManager.

(** For a name that is not the name of a member that every object
    inherits, and parameter names made of word characters:
    [executeQuickCommand] returns a text exactly when the name is a
    template and the number of arguments is the number of its parameters.
    An unknown name and a wrong number of arguments throw, the latter
    naming both numbers, and nothing is substituted. *)
Theorem executeQuickCommand_needs_name_and_arity
    (st : QM.store) (name : string) (args : list string) :
  own_name name = true ->
  (forall command,
      getQuickCommand st name = Some command ->
      Forall (fun p => word_chars p = true) (parameters command)) ->
  ((exists out, executeQuickCommand st name args = Return out) <->
   exists command,
     getQuickCommand st name = Some command
     /\ length args = length (parameters command))
  /\ (getQuickCommand st name = None ->
      executeQuickCommand st name args
      = Throw (Error ("Quick command '" ++ name ++ "' not found")))
  /\ (forall command,
        getQuickCommand st name = Some command ->
        length args <> length (parameters command) ->
        executeQuickCommand st name args
        = Throw (Error ("Expected " ++ number_to_string (length (parameters command))
                        ++ " arguments for '" ++ name ++ "', got "
                        ++ number_to_string (length args)))).
Proof.
  intros _ _. unfold executeQuickCommand. split; [|split].
  - destruct (getQuickCommand st name) as [command|].
    + destruct (Nat.eqb_spec (length args) (length (parameters command))) as [Heq|Hne];
        cbn [negb]; split.
      * intros _. exists command. auto.
      * intros _. eexists. reflexivity.
      * intros [out H]. discriminate H.
      * intros (c & [= <-] & Hlen). contradiction.
    + split; [intros [out H]; discriminate H | intros (c & H & _); discriminate H].
  - intros ->. reflexivity.
  - intros command -> Hne. apply Nat.eqb_neq in Hne. rewrite Hne. reflexivity.
Qed.

Lemma executeQuickCommand_needs_name_and_arity_witness :
  executeQuickCommand pay_commands "pay" ["1"; "2"]
  = Throw (Error "Expected 1 arguments for 'pay', got 2").
Proof.
  apply (proj2 (proj2 (executeQuickCommand_needs_name_and_arity pay_commands "pay"
                         ["1"; "2"] eq_refl
                         ltac:(intros command [= <-]; repeat constructor)))
           pay_command); [reflexivity | cbn; lia].
Defined.

Lemma occurs_needs_dollar (param s : string) :
  Spec.mentions dollar s = false -> Spec.occurs (String dollar param) s = false.
Proof.
  induction s as [|c s IH]; [reflexivity|].
  cbn [Spec.mentions Spec.occurs startsWith]. intros H.
  apply orb_false_iff in H as [Hc Hs]. rewrite Hc, (IH Hs). reflexivity.
Qed.

Lemma substitute_no_dollar (params : list string) :
  forall index args body,
    Spec.mentions dollar body = false -> substitute params index args body = body.
Proof.
  induction params as [|p params IH]; intros index args body Hbody; [reflexivity|].
  cbn [substitute].
  rewrite (replace_placeholder_none p _ body "" (occurs_needs_dollar p body Hbody)).
  apply IH, Hbody.
Qed.

(** A template without a dollar sign whose parameter names are made of
    word characters expands to itself, whatever the arguments are. *)
Theorem expansion_without_sigil_is_the_body
    (st : QM.store) (name : string) (command : QuickCommand) (args : list string) :
  getQuickCommand st name = Some command ->
  Forall (fun p => word_chars p = true) (parameters command) ->
  length args = length (parameters command) ->
  Spec.mentions dollar (template command) = false ->
  executeQuickCommand st name args = Return (template command).
Proof.
  intros Hget _ Hlen Hbody. unfold executeQuickCommand. rewrite Hget.
  apply Nat.eqb_eq in Hlen. rewrite Hlen. cbn [negb].
  rewrite substitute_no_dollar by exact Hbody. reflexivity.
Qed.

Lemma expansion_without_sigil_is_the_body_witness :
  executeQuickCommand
    (addQuickCommand "ping" ["x"] "call w token ping()" None t0 (create t0))
    "ping" ["$&"]
  = Return "call w token ping()".
Proof.
  apply (expansion_without_sigil_is_the_body _ "ping"
           (mkQuickCommand "ping" ["x"] "call w token ping()" None t0 t0));
    [reflexivity | repeat constructor | reflexivity | reflexivity].
Defined.





End CommandRegistry.

(** ** Tokens *)

Section Tokens.

Import WalletManager.

Lemma glue_pieces (rs : list Spec.role) :
  glue (fst (Spec.pieces rs) :: snd (Spec.pieces rs)) = literal_text rs.
Proof.
  induction rs as [|r rs IH]; [reflexivity|].
  destruct r as [| |c]; cbn [Spec.pieces literal_text];
    destruct (Spec.pieces rs) as [g gs]; cbn [fst snd glue fold_right] in *;
    cbn [String.append]; congruence.
Qed.

Lemma glue_filter_truthy (l : list string) :
  glue (List.filter truthy l) = glue l.
Proof.
  induction l as [|x l IH]; [reflexivity|].
  cbn [List.filter]. destruct x as [|c x]; cbn [truthy String.eqb negb glue fold_right].
  - exact IH.
  - change (fold_right String.append "" (List.filter truthy l))
      with (glue (List.filter truthy l)).
    rewrite IH. reflexivity.
Qed.

(** The tokenizer neither invents nor reorders characters: the tokens, put
    one after the other, are the characters of the input without the
    unquoted spaces and without the quote characters that open or close a
    span. *)
Theorem tokens_are_the_literal_characters (s : string) :
  glue (parseCommandLine s) = literal_text (Spec.classify Spec.is_space None s).
Proof.
  rewrite parseCommandLine_tokenize. unfold Spec.tokenize.
  rewrite <- glue_pieces. destruct (Spec.pieces _) as [g gs]. cbn [fst snd].
  apply glue_filter_truthy.
Qed.

Lemma bare_token_parse (w : string) :
  bare_token w = true -> parseCommandLine w = [w] /\ Spec.balanced w = true.
Proof.
  unfold bare_token. intros H. apply andb_prop in H as [Hne Hw].
  unfold parseCommandLine, Spec.balanced.
  change (Scanner [] "" false "") with (scanner_of [] "" None).
  rewrite (scan_plain_word w Hw). cbn [String.append].
  unfold finish, scanner_of; cbn [current args inQuotes]. rewrite Hne.
  split; reflexivity.
Qed.

(** Tokens that need no quoting come back from the text that joins them
    with single spaces. *)
Theorem parseCommandLine_reads_joined_tokens (tokens : list string) :
  Forall (fun w => bare_token w = true) tokens ->
  parseCommandLine (String.concat " " tokens) = tokens.
Proof.
  induction tokens as [|w tokens IH]; intros Hall; [reflexivity|].
  inversion Hall as [|? ? Hw Hrest]; subst.
  destruct (bare_token_parse w Hw) as [Hparse Hbal].
  destruct tokens as [|w' tokens]; [exact Hparse|].
  change (String.concat " " (w :: w' :: tokens))
    with (w ++ String space (String.concat " " (w' :: tokens))).
  rewrite (parseCommandLine_boundary w _ Hbal), Hparse, (IH Hrest). reflexivity.
Qed.

Lemma parseCommandLine_reads_joined_tokens_witness :
  parseCommandLine (String.concat " " ["send"; "w"; "token"; "give(address)"; "0xabc"])
  = ["send"; "w"; "token"; "give(address)"; "0xabc"].
Proof.
  apply (parseCommandLine_reads_joined_tokens
           ["send"; "w"; "token"; "give(address)"; "0xabc"]).
  repeat constructor.
Defined.

(** ** Reconstruction *)

Lemma parseQuickCommand_needs_four_tokens_aux (command : string) :
  ((length (parseCommandLine command) < 4)%nat ->
   parseQuickCommand command = Throw format_error)
  /\ ((4 <= length (parseCommandLine command))%nat ->
      exists a c m rest,
        Spec.data_tokens (parseCommandLine command) = a :: c :: m :: rest
        /\ parseQuickCommand command
           = Return (QuickCall a c m (x_args (scan_options rest no_options))
                               (x_rpcUrl (scan_options rest no_options))
                               (x_options (scan_options rest no_options)))).
Proof.
  split; [apply parseQuickCommand_short|].
  intros Hlen.
  assert (Hdata : exists a c m rest,
             Spec.data_tokens (parseCommandLine command) = a :: c :: m :: rest).
  { destruct (parseCommandLine command) as [|p0 [|p1 [|p2 [|p3 r]]]];
      try (simpl in Hlen; lia).
    cbn [Spec.data_tokens]. destruct (Spec.is_verb p0); eauto. }
  destruct Hdata as (a & c & m & rest & Hdata).
  exists a, c, m, rest. split; [exact Hdata|].
  apply parseQuickCommand_data; assumption.
Qed.

(** [parseQuickCommand] throws its format error exactly when the command
    has fewer than four tokens. With four or more it returns, and the
    signer alias, the contract reference and the method signature are the
    first three tokens after a leading [call] or [send]. *)
Theorem parseQuickCommand_needs_four_tokens (command : string) :
  ((length (parseCommandLine command) < 4)%nat ->
   parseQuickCommand command = Throw format_error)
  /\ ((4 <= length (parseCommandLine command))%nat ->
      exists a c m rest,
        Spec.data_tokens (parseCommandLine command) = a :: c :: m :: rest
        /\ parseQuickCommand command
           = Return (QuickCall a c m (x_args (scan_options rest no_options))
                               (x_rpcUrl (scan_options rest no_options))
                               (x_options (scan_options rest no_options)))).
Proof. exact (parseQuickCommand_needs_four_tokens_aux command). Qed.

Lemma parseQuickCommand_needs_four_tokens_witness :
  parseQuickCommand "call my-wallet token" = Throw format_error.
Proof.
  apply (proj1 (parseQuickCommand_needs_four_tokens "call my-wallet token")).
  apply Nat.ltb_lt. reflexivity.
Defined.

Lemma scan_options_all_positional (rest : list string) :
  forall st,
    Forall (fun t => no_dashes t = true) rest ->
    scan_options rest st
    = OptionScan (x_args st ++ rest) (x_rpcUrl st) (x_options st).
Proof.
  induction rest as [|t rest IH]; intros st Hall.
  - cbn [scan_options]. rewrite app_nil_r. destruct st; reflexivity.
  - inversion Hall as [|? ? Ht Hrest]; subst.
    unfold no_dashes in Ht. apply negb_true_iff in Ht.
    rewrite (scan_options_positional t rest st Ht), (IH _ Hrest).
    cbn [x_args x_rpcUrl x_options]. rewrite <- app_assoc. reflexivity.
Qed.

(** When no token after the method signature starts with two dashes, all
    of them are the positional arguments, in their order, and no option is
    set. *)
Theorem tokens_without_dashes_are_the_arguments
    (command a c m : string) (rest : list string) :
  (4 <= length (parseCommandLine command))%nat ->
  Spec.data_tokens (parseCommandLine command) = a :: c :: m :: rest ->
  Forall (fun t => no_dashes t = true) rest ->
  parseQuickCommand command
  = Return (QuickCall a c m rest None (CallOptions None None None)).
Proof.
  intros Hlen Hdata Hall.
  rewrite (parseQuickCommand_data command a c m rest Hlen Hdata).
  rewrite (scan_options_all_positional rest no_options Hall). reflexivity.
Qed.

Lemma tokens_without_dashes_are_the_arguments_witness :
  parseQuickCommand "send w token give(address,uint256) 0xabc 5"
  = Return (QuickCall "w" "token" "give(address,uint256)" ["0xabc"; "5"] None
                      (CallOptions None None None)).
Proof.
  apply (tokens_without_dashes_are_the_arguments
           "send w token give(address,uint256) 0xabc 5");
    [apply Nat.leb_le; reflexivity | reflexivity | repeat constructor].
Defined.

Lemma scan_options_pair_args (part next : string) (st : option_scan) :
  Spec.recognized part = true ->
  exists st',
    x_args st' = x_args st
    /\ forall rest', scan_options (part :: next :: rest') st = scan_options rest' st'.
Proof.
  intros Hr.
  destruct (recognized_cases part Hr) as [->|[->|[->| ->]]];
    eexists; (split; [|intros rest'; reflexivity]); reflexivity.
Qed.

Lemma scan_options_args_le (n : nat) :
  forall (rest : list string) (st : option_scan),
    (length rest <= n)%nat ->
    exists l,
      x_args (scan_options rest st) = (x_args st ++ l)%list
      /\ l `sublist_of` rest
      /\ Forall (fun t => no_dashes t = true) l.
Proof.
  induction n as [|n IH]; intros rest st Hn.
  - destruct rest; [|simpl in Hn; lia].
    exists []. rewrite app_nil_r. repeat split; constructor.
  - destruct rest as [|part rest].
    { exists []. rewrite app_nil_r. repeat split; constructor. }
    cbn [length] in Hn.
    destruct (Spec.recognized part) eqn:Hr.
    + destruct rest as [|next rest'].
      * rewrite (scan_options_last_flag part st (recognized_prefix part Hr)).
        exists []. rewrite app_nil_r. repeat split; [apply sublist_nil_l | constructor].
      * destruct (scan_options_pair_args part next st Hr) as (st' & Hargs & Hst').
        rewrite Hst'. cbn [length] in Hn.
        destruct (IH rest' st' ltac:(lia)) as (l & Hl & Hsub & Hall).
        exists l. rewrite Hl, Hargs. repeat split; [|exact Hall].
        apply sublist_cons, sublist_cons, Hsub.
    + destruct (startsWith part "--") eqn:Hp.
      * rewrite (scan_options_unrecognized part rest st Hp Hr).
        destruct (IH rest st ltac:(lia)) as (l & Hl & Hsub & Hall).
        exists l. repeat split; [exact Hl | apply sublist_cons, Hsub | exact Hall].
      * rewrite (scan_options_positional part rest st Hp).
        destruct (IH rest (OptionScan (x_args st ++ [part]) (x_rpcUrl st) (x_options st))
                    ltac:(lia)) as (l & Hl & Hsub & Hall).
        exists (part :: l). cbn [x_args] in Hl. rewrite Hl, <- app_assoc.
        repeat split; [apply sublist_skip, Hsub|].
        constructor; [unfold no_dashes; rewrite Hp; reflexivity | exact Hall].
Qed.

(** The positional arguments of a reconstructed call are tokens of the
    command, in the order of the command, and none of them starts with two
    dashes. *)
Theorem positional_arguments_are_undashed_tokens
    (command : string) (call : quick_call) :
  parseQuickCommand command = Return call ->
  call_args call `sublist_of` parseCommandLine command
  /\ Forall (fun t => no_dashes t = true) (call_args call).
Proof.
  intros Hcall.
  destruct (Nat.lt_ge_cases (length (parseCommandLine command)) 4) as [Hlt|Hge].
  { rewrite (parseQuickCommand_short command Hlt) in Hcall. discriminate Hcall. }
  destruct (proj2 (parseQuickCommand_needs_four_tokens_aux command) Hge)
    as (a & c & m & rest & Hdata & Hret).
  rewrite Hret in Hcall. injection Hcall as <-. cbn [call_args].
  destruct (scan_options_args_le (length rest) rest no_options (le_n _))
    as (l & Hl & Hsub & Hall).
  rewrite Hl. cbn [no_options x_args app]. split; [|exact Hall].
  transitivity rest; [exact Hsub|].
  transitivity (a :: c :: m :: rest); [do 3 apply sublist_cons; reflexivity|].
  rewrite <- Hdata. destruct (parseCommandLine command) as [|p0 parts]; [reflexivity|].
  cbn [Spec.data_tokens]. destruct (Spec.is_verb p0); [apply sublist_cons|]; reflexivity.
Qed.

Lemma positional_arguments_are_undashed_tokens_witness :
  ["0xabc"; "1000"] `sublist_of` parseCommandLine transfer_command
  /\ Forall (fun t => no_dashes t = true) ["0xabc"; "1000"].
Proof.
  apply (positional_arguments_are_undashed_tokens transfer_command
           (QuickCall "my-wallet" "token-alias" "transfer(address,uint256)"
                      ["0xabc"; "1000"] (Some "http://x")
                      (CallOptions None None None))).
  reflexivity.
Defined.

End Tokens.

(** ** Quick calls *)

Section QuickCalls.

Context {W : Type}.

(** When a quick command whose parameter names are made of word
    characters expands and its expansion is reconstructed, the call is made
    only for a loaded wallet, and otherwise throws. When moreover the
    contract reference is not the name of a member that every object
    inherits and every stored address has the checked format, the
    reference reaches the call resolved once, although the code resolves it
    a second time: an alias as its address, anything else as it is. *)
Theorem quick_call_resolves_the_reference
    (m : @Wallets.manager W) (quickCommands : QM.store) (contracts : CM.store)
    (name : string) (args : list string) (command : QM.QuickCommand)
    (expanded : string) (parts : WalletManager.quick_call) :
  QM.getQuickCommand quickCommands name = Some command ->
  Forall (fun p => QM.word_chars p = true) (QM.parameters command) ->
  QM.executeQuickCommand quickCommands name args = Return expanded ->
  WalletManager.parseQuickCommand expanded = Return parts ->
  (Wallets.getWallet m (WalletManager.alias parts) = None ->
   Wallets.executeQuickCommand m quickCommands contracts name args
   = Throw (Error ("Wallet '" ++ WalletManager.alias parts
                   ++ "' not loaded. Call loadWallet first.")))
  /\ (forall w, Wallets.getWallet m (WalletManager.alias parts) = Some w ->
        own_name (WalletManager.contractAddress parts) = true ->
        well_formed contracts ->
        Wallets.executeQuickCommand m quickCommands contracts name args
        = Return (Wallets.ContractCall (WalletManager.alias parts)
                    (CM.resolveAddress contracts (WalletManager.contractAddress parts))
                    (WalletManager.methodSignature parts)
                    (WalletManager.call_args parts)
                    (WalletManager.rpcUrl parts)
                    (WalletManager.options parts))).
Proof.
  intros _ _ Hexp Hparse. unfold Wallets.executeQuickCommand, Wallets.callContract.
  rewrite Hexp, Hparse. split.
  - intros ->. reflexivity.
  - intros w -> _ Hwf.
    rewrite (proj1 (resolveAddress_idempotent_aux contracts _ Hwf)). reflexivity.
Qed.

End QuickCalls.

Lemma quick_call_resolves_the_reference_witness :
  Wallets.executeQuickCommand one_wallet give_commands token_contracts "give"
    ["0xabc"; "5"]
  = Return (Wallets.ContractCall "w" address_a "give()" ["0xabc"; "5"] None
              (WalletManager.CallOptions None None None)).
Proof.
  apply (proj2 (quick_call_resolves_the_reference one_wallet give_commands
                  token_contracts "give" ["0xabc"; "5"]
                  (QM.mkQuickCommand "give" ["to"; "amount"]
                     "send w token give() $to $amount" None t0 t0)
                  "send w token give() 0xabc 5"
                  (WalletManager.QuickCall "w" "token" "give()" ["0xabc"; "5"] None
                     (WalletManager.CallOptions None None None))
                  eq_refl ltac:(repeat constructor) eq_refl eq_refl)
           tt eq_refl eq_refl token_contracts_well_formed).
Defined.

(** ** Wallet records *)

Section WalletRecords.

Context {W : Type}.

(** [removeWallet] of an alias without a record returns [false] and
    changes nothing. Of a known alias it returns [true]: the record and
    the loaded wallet are gone, the keystore file of the record, when it
    names one, no longer exists, the records written to the info file are
    the records that are left, and the other wallets are as before. *)
Theorem removeWallet_forgets_the_wallet (alias : string) (m : @Wallets.manager W) :
  (Wallets.getWalletInfo m alias = None -> Wallets.removeWallet alias m = (false, m))
  /\ (forall info, Wallets.getWalletInfo m alias = Some info ->
        fst (Wallets.removeWallet alias m) = true
        /\ Wallets.hasWallet (snd (Wallets.removeWallet alias m)) alias = false
        /\ Wallets.getWallet (snd (Wallets.removeWallet alias m)) alias = None
        /\ (forall path, Wallets.keystorePath info = Some path -> path <> "" ->
              path ∉ Wallets.keystores (snd (Wallets.removeWallet alias m)))
        /\ Wallets.infoFile (snd (Wallets.removeWallet alias m))
           = Some (Wallets.walletInfo (snd (Wallets.removeWallet alias m)))
        /\ forall k, k <> alias ->
             Wallets.getWalletInfo (snd (Wallets.removeWallet alias m)) k
             = Wallets.getWalletInfo m k
             /\ Wallets.getWallet (snd (Wallets.removeWallet alias m)) k
                = Wallets.getWallet m k).
Proof.
  unfold Wallets.getWalletInfo, Wallets.removeWallet. split.
  - intros ->. reflexivity.
  - intros info ->. cbn [fst snd]. split; [reflexivity|].
    unfold Wallets.hasWallet, Wallets.getWallet, Wallets.saveWalletInfo; cbn.
    split; [|split; [|split; [|split]]].
    + rewrite lookup_delete_eq. reflexivity.
    + apply lookup_delete_eq.
    + intros path Hpath Hne. unfold Wallets.keystore_to_unlink. rewrite Hpath.
      destruct path as [|ch path]; [congruence|]. cbn [truthy String.eqb negb andb].
      destruct (bool_decide_reflect (String ch path ∈ Wallets.keystores m)) as [Hin|Hout].
      * rewrite elem_of_difference, elem_of_singleton. tauto.
      * exact Hout.
    + reflexivity.
    + intros k Hne. rewrite !lookup_delete_ne by congruence. split; reflexivity.
Qed.

(** The network of a wallet is the one of its record when that is a
    non-empty string, and the current network of the manager otherwise:
    for an unknown alias, for a record without network, and after
    [setWalletNetwork] with the empty string. [setWalletNetwork] returns
    [false] and changes nothing for an unknown alias; for a known one it
    changes the network of that record only and writes the records to the
    info file. *)
Theorem wallet_network_falls_back_to_current
    (alias network : string) (m : @Wallets.manager W) :
  (Wallets.getWalletInfo m alias = None ->
   Wallets.getWalletNetwork m alias = Wallets.currentNetwork m
   /\ Wallets.setWalletNetwork alias network m = (false, m))
  /\ (forall info, Wallets.getWalletInfo m alias = Some info ->
        (Wallets.network info = None ->
         Wallets.getWalletNetwork m alias = Wallets.currentNetwork m)
        /\ fst (Wallets.setWalletNetwork alias network m) = true
        /\ Wallets.getWalletNetwork (snd (Wallets.setWalletNetwork alias network m)) alias
           = (if truthy network then network else Wallets.currentNetwork m)
        /\ Wallets.getWalletInfo (snd (Wallets.setWalletNetwork alias network m)) alias
           = Some (Wallets.mkWalletInfo (Wallets.alias info) (Wallets.address info)
                     (Wallets.keystorePath info) (Wallets.isHD info)
                     (Wallets.hdPath info) (Some network))
        /\ Wallets.infoFile (snd (Wallets.setWalletNetwork alias network m))
           = Some (Wallets.walletInfo (snd (Wallets.setWalletNetwork alias network m)))
        /\ forall k, k <> alias ->
             Wallets.getWalletNetwork (snd (Wallets.setWalletNetwork alias network m)) k
             = Wallets.getWalletNetwork m k).
Proof.
  unfold Wallets.getWalletNetwork, Wallets.getWalletInfo, Wallets.setWalletNetwork.
  split.
  - intros ->. split; reflexivity.
  - intros info Hinfo. rewrite Hinfo. cbn [fst snd].
    unfold Wallets.saveWalletInfo; cbn [Wallets.walletInfo Wallets.currentNetwork
                                           Wallets.infoFile].
    split; [intros ->; reflexivity|]. split; [reflexivity|].
    split; [rewrite lookup_insert_eq; reflexivity|].
    split; [apply lookup_insert_eq|]. split; [reflexivity|].
    intros k Hne. rewrite lookup_insert_ne by congruence. reflexivity.
Qed.

End WalletRecords.

Lemma removeWallet_forgets_the_wallet_witness :
  Wallets.removeWallet "ghost" one_wallet = (false, one_wallet).
Proof.
  apply (proj1 (removeWallet_forgets_the_wallet "ghost" one_wallet)). reflexivity.
Defined.

Lemma wallet_network_falls_back_to_current_witness :
  Wallets.getWalletNetwork one_wallet "ghost" = "mainnet"
  /\ Wallets.setWalletNetwork "ghost" "sepolia" one_wallet = (false, one_wallet).
Proof.
  apply (proj1 (wallet_network_falls_back_to_current "ghost" "sepolia" one_wallet)).
  reflexivity.
Defined.

(** ** The parameter list of [quick add] *)

Section ParameterList.

Import Cli.

Lemma has_whitespace_app (a b : string) :
  has_whitespace (a ++ b) = (has_whitespace a || has_whitespace b)%bool.
Proof.
  induction a as [|c a IH]; [reflexivity|].
  cbn [String.append has_whitespace]. rewrite IH, orb_assoc. reflexivity.
Qed.

Lemma split_whitespace_pieces (s : string) :
  forall piece in_run,
    has_whitespace piece = false ->
    Forall (fun p => has_whitespace p = false) (split_whitespace s piece in_run).
Proof.
  induction s as [|c s IH]; intros piece in_run Hpiece; cbn [split_whitespace].
  - constructor; [exact Hpiece | constructor].
  - destruct (is_js_whitespace c) eqn:Hc.
    + destruct in_run; [apply IH; reflexivity|].
      constructor; [exact Hpiece | apply IH; reflexivity].
    + apply IH. rewrite has_whitespace_app, Hpiece. cbn. rewrite Hc. reflexivity.
Qed.

Lemma paramList_names (parameters : string) :
  Forall (fun p => is_name p = true) (paramList parameters).
Proof.
  unfold paramList. apply List.Forall_forall. intros p Hp.
  apply filter_In in Hp as [Hin Hlen].
  pose proof (split_whitespace_pieces (trim parameters) "" false eq_refl) as Hall.
  rewrite List.Forall_forall in Hall. unfold is_name. rewrite (Hall p Hin).
  destruct p; [discriminate Hlen | reflexivity].
Qed.

Lemma trimStart_blank (s : string) : blank s = true -> trimStart s = "".
Proof.
  induction s as [|c s IH]; [reflexivity|]. cbn [blank trimStart].
  intros H. apply andb_prop in H as [-> Hs]. auto.
Qed.

Lemma paramList_blank (parameters : string) :
  blank parameters = true -> paramList parameters = [].
Proof.
  intros H. unfold paramList, trim. rewrite (trimStart_blank _ H). reflexivity.
Qed.

Lemma split_whitespace_word (w rest : string) :
  has_whitespace w = false ->
  forall piece,
    split_whitespace (w ++ rest) piece false = split_whitespace rest (piece ++ w) false.
Proof.
  induction w as [|c w IH]; intros Hw piece.
  - cbn [String.append]. rewrite append_empty_r. reflexivity.
  - cbn [has_whitespace] in Hw. apply orb_false_iff in Hw as [Hc Hw].
    cbn [String.append split_whitespace]. rewrite Hc, (IH Hw).
    unfold char_string. rewrite append_assoc. reflexivity.
Qed.

Lemma is_name_cases (w : string) :
  is_name w = true ->
  exists c w', w = String c w' /\ is_js_whitespace c = false
               /\ has_whitespace w' = false.
Proof.
  unfold is_name. destruct w as [|c w']; [discriminate|]. cbn [truthy String.eqb negb andb].
  intros H. apply negb_true_iff in H. cbn [has_whitespace] in H.
  apply orb_false_iff in H as [Hc Hw]. eauto.
Qed.

Lemma split_whitespace_joined (names : list string) :
  forall w in_run,
    Forall (fun p => is_name p = true) (w :: names) ->
    split_whitespace (String.concat " " (w :: names)) "" in_run = w :: names.
Proof.
  induction names as [|w2 names IH]; intros w in_run Hall;
    inversion Hall as [|? ? Hw Hrest]; subst;
    destruct (is_name_cases w Hw) as (c & w' & -> & Hc & Hw').
  - cbn [String.concat split_whitespace]. rewrite Hc.
    rewrite <- (append_empty_r w') at 1.
    rewrite (split_whitespace_word w' "" Hw'). reflexivity.
  - change (String.concat " " (String c w' :: w2 :: names))
      with (String c (w' ++ String " " (String.concat " " (w2 :: names)))).
    cbn [split_whitespace]. rewrite Hc, (split_whitespace_word w' _ Hw').
    cbn [split_whitespace]. change (is_js_whitespace " ") with true. cbv iota.
    rewrite (IH w2 true Hrest). reflexivity.
Qed.

Lemma trimEnd_app (a t : string) :
  trimEnd t = t -> t <> "" -> trimEnd (a ++ t) = a ++ t.
Proof.
  intros Ht Hne. induction a as [|c a IH]; [exact Ht|].
  cbn [String.append trimEnd]. rewrite IH.
  destruct (a ++ t) eqn:E; [|reflexivity].
  destruct a; [cbn in E; congruence | discriminate E].
Qed.

Lemma trimEnd_word (w : string) :
  w <> "" -> has_whitespace w = false -> trimEnd w = w.
Proof.
  induction w as [|c w IH]; [congruence|]. intros _ Hw.
  cbn [has_whitespace] in Hw. apply orb_false_iff in Hw as [Hc Hw].
  cbn [trimEnd]. destruct w as [|d w].
  - cbn [trimEnd]. rewrite Hc. reflexivity.
  - rewrite IH by (congruence || exact Hw). reflexivity.
Qed.

Lemma trim_joined (names : list string) :
  Forall (fun p => is_name p = true) names ->
  trim (String.concat " " names) = String.concat " " names.
Proof.
  intros Hall. destruct names as [|w names]; [reflexivity|].
  unfold trim.
  assert (Hstart : trimStart (String.concat " " (w :: names))
                   = String.concat " " (w :: names)).
  { inversion Hall as [|? ? Hw _]; subst.
    destruct (is_name_cases w Hw) as (c & w' & -> & Hc & _).
    destruct names; cbn [String.concat String.append trimStart]; rewrite Hc;
      reflexivity. }
  rewrite Hstart. clear Hstart. revert w Hall.
  induction names as [|w2 names IH]; intros w Hall;
    inversion Hall as [|? ? Hw Hrest]; subst;
    destruct (is_name_cases w Hw) as (c & w' & Ew & Hc & Hw').
  - cbn [String.concat]. apply trimEnd_word; [congruence|].
    rewrite Ew. cbn [has_whitespace]. rewrite Hc, Hw'. reflexivity.
  - change (String.concat " " (w :: w2 :: names))
      with (w ++ " " ++ String.concat " " (w2 :: names)).
    rewrite <- append_assoc. apply trimEnd_app; [apply IH, Hrest|].
    inversion Hrest as [|? ? Hw2 _]; subst.
    destruct (is_name_cases w2 Hw2) as (c2 & w2' & -> & _ & _).
    destruct names; discriminate.
Qed.

(** The names of [quick add] are the stretches of the parameter text
    between whitespace: each is non-empty and free of whitespace, names
    joined by single spaces come back as they are, and a parameter text of
    whitespace only gives no name, in which case the parameters are the
    ones detected in the template. *)
Theorem paramList_splits_the_names :
  (forall parameters, Forall (fun p => is_name p = true) (paramList parameters))
  /\ (forall names,
        Forall (fun p => is_name p = true) names ->
        paramList (String.concat " " names) = names)
  /\ (forall parameters template,
        blank parameters = true ->
        paramList parameters = []
        /\ finalParams parameters template
           = QM.parseParametersFromTemplate template)
  /\ (forall parameters template,
        paramList parameters <> [] ->
        finalParams parameters template = paramList parameters).
Proof.
  split; [exact paramList_names|]. split; [|split].
  - intros names Hall. unfold paramList. rewrite (trim_joined names Hall).
    destruct names as [|w names]; [reflexivity|].
    rewrite (split_whitespace_joined names w false Hall).
    apply forallb_filter_id, forallb_forall. intros p Hp.
    rewrite List.Forall_forall in Hall.
    destruct (is_name_cases p (Hall p Hp)) as (c & p' & -> & _). reflexivity.
  - intros parameters template Hblank. unfold finalParams.
    rewrite (paramList_blank parameters Hblank). split; reflexivity.
  - intros parameters template Hne. unfold finalParams.
    destruct (paramList parameters); [congruence | reflexivity].
Qed.

Lemma paramList_splits_the_names_witness :
  paramList (String.concat " " ["amount"; "recipient"]) = ["amount"; "recipient"].
Proof.
  apply (proj1 (proj2 paramList_splits_the_names) ["amount"; "recipient"]).
  repeat constructor.
Defined.

End ParameterList.

(** ** Values and aliases in use *)

Section InUse.

Import QuickCommandManager.

Lemma replace_placeholder_echo (param : string) (n : nat) :
  forall s before,
    (String.length s <= n)%nat ->
    replace_placeholder param "$&" before s = s.
Proof.
  induction n as [|n IH]; intros s before Hn.
  - destruct s; [simp replace_placeholder; reflexivity | simpl in Hn; lia].
  - destruct s as [|c s]; [simp replace_placeholder; reflexivity|].
    simpl in Hn.
    destruct (startsWith (String c s) (String dollar param)) eqn:Hhead.
    + rewrite (replace_placeholder_hit param "$&" before s c Hhead).
      change (GetSubstitution (String dollar param) (before ++ String c s)
                (String.length before) "$&")
        with (String dollar param ++ "").
      rewrite append_empty_r, IH.
      * cbn [startsWith] in Hhead. apply andb_prop in Hhead as [Hc Hrest].
        apply Ascii.eqb_eq in Hc. subst c. apply startsWith_split in Hrest.
        cbn [String.append]. congruence.
      * pose proof (drop_length_le (String.length param) s). lia.
    + rewrite (replace_placeholder_miss param "$&" before s c Hhead).
      f_equal. apply IH. lia.
Qed.

(** A value is not always put in as it is: the argument [$&] stands for
    the matched text, so that a template with one parameter whose name is
    made of word characters, given [$&], expands to its own body with the
    placeholders still in place. *)
Theorem matched_text_value_restores_the_placeholder
    (st : QM.store) (name param : string) (command : QuickCommand) :
  getQuickCommand st name = Some command ->
  parameters command = [param] ->
  word_chars param = true ->
  executeQuickCommand st name ["$&"] = Return (template command).
Proof.
  intros Hget Hps _. unfold executeQuickCommand. rewrite Hget, Hps.
  cbn [length Nat.eqb negb substitute arg_at nth].
  rewrite (replace_placeholder_echo param (String.length (template command)));
    [reflexivity | lia].
Qed.

Lemma matched_text_value_restores_the_placeholder_witness :
  executeQuickCommand pay_commands "pay" ["$&"] = Return "send $amountMax $amount".
Proof.
  apply (matched_text_value_restores_the_placeholder pay_commands "pay" "amount"
           pay_command); reflexivity.
Defined.

(** An alias that is not the name of a member that every object inherits
    and that is added with an address of the checked format resolves to
    that address, unless the alias itself has the format of an address, in
    which case it resolves to itself; once removed, it resolves to itself
    again. *)
Theorem alias_resolves_while_it_is_stored
    (st : CM.store) (alias a : string) (options : CM.contract_options)
    (now later : string) :
  own_name alias = true ->
  CM.bad_format a = false ->
  (CM.bad_format alias = true ->
   CM.resolveAddress (snd (CM.addContract alias a options now st)) alias = a)
  /\ (CM.bad_format alias = false ->
      CM.resolveAddress (snd (CM.addContract alias a options now st)) alias = alias)
  /\ CM.resolveAddress
       (snd (CM.removeContract alias later
               (snd (CM.addContract alias a options now st))))
       alias
     = alias.
Proof.
  intros _ Ha. split; [|split].
  - intros Halias. unfold CM.addContract. rewrite Ha. cbn [snd].
    erewrite resolveAddress_alias; [| exact Halias |].
    2: { rewrite assign_and_save_lookup. apply decide_True. reflexivity. }
    reflexivity.
  - intros Halias. apply resolveAddress_literal, Halias.
  - apply resolveAddress_unknown. rewrite removeContract_lookup.
    apply decide_True. reflexivity.
Qed.

Lemma alias_resolves_while_it_is_stored_witness :
  (CM.bad_format "vault" = true ->
   CM.resolveAddress (snd (CM.addContract "vault" address_b no_metadata t1 token_contracts))
     "vault"
   = address_b)
  /\ (CM.bad_format "vault" = false ->
      CM.resolveAddress (snd (CM.addContract "vault" address_b no_metadata t1 token_contracts))
        "vault"
      = "vault")
  /\ CM.resolveAddress
       (snd (CM.removeContract "vault" t1
               (snd (CM.addContract "vault" address_b no_metadata t1 token_contracts))))
       "vault"
     = "vault".
Proof.
  apply (alias_resolves_while_it_is_stored token_contracts "vault" address_b
           no_metadata t1 t1); reflexivity.
Defined.

End InUse.
